(** * api-mapper: the OpenAPI normalizer, the renderers and the spec locator

    The development follows the layout of the TypeScript sources:
    - [JsString]  : the JavaScript string and array primitives the code
                    relies on (split, join, startsWith, endsWith, includes,
                    replace, toUpperCase, toLowerCase, map with index);
    - [Parser]    : src/parser.ts (raw document -> ParsedApi);
    - [ClientGen] : src/generator/client.ts;
    - [TypesGen]  : src/generator/types.ts;
    - [Fetcher]   : src/fetcher.ts (spec discovery);
    - [Server]    : src/server.ts (the search for a free port);
    - [DocsGen]   : src/generator/docs.ts (table cells, parameter tables,
                    quick start);
    - [Cli]       : the command line (the name of the client class);
    - [Vocabulary], [Instances], [MoreInstances], [MoreVocabulary] : the
                    notions the statements use and the concrete documents
                    they are tried on;
    - [JsStringFacts], [ParserProps], [RendererProps], [FetcherProps],
      [MoreClientProps], [MoreParserProps], [MoreTypesProps], [DocsProps],
      [MoreFetcherProps], [ServerProps] : the properties.

    Strings are modelled as Stdlib strings (sequences of 8-bit characters);
    case conversion acts on the ASCII letters, as the JavaScript functions do
    on ASCII input.  A JavaScript object used as a record of entries
    (Record<string, T>) is modelled by the list of its entries in the order
    Object.entries enumerates them; a Map or a Set by the list of its
    entries in insertion order. *)

From Stdlib Require Import String Ascii List Bool Arith Lia.
Import ListNotations.
Open Scope list_scope.
Open Scope string_scope.
Set Warnings "-register-all".

(** String concatenation is written [++]; list concatenation [+++]. *)
Infix "+++" := List.app (right associativity, at level 60).

(* ------------------------------------------------------------------ *)
(** ** JavaScript string primitives *)

Module JsString.

Definition inRange (lo hi : nat) (c : ascii) : bool :=
  let n := nat_of_ascii c in Nat.leb lo n && Nat.leb n hi.

Definition isUpper (c : ascii) : bool := inRange 65 90 c.
Definition isLower (c : ascii) : bool := inRange 97 122 c.
Definition isDigit (c : ascii) : bool := inRange 48 57 c.

(** The regular-expression class \w, that is [A-Za-z0-9_]. *)
Definition isWordChar (c : ascii) : bool :=
  isUpper c || isLower c || isDigit c || Ascii.eqb c "_"%char.

Definition toUpperChar (c : ascii) : ascii :=
  if isLower c then ascii_of_nat (nat_of_ascii c - 32) else c.

Definition toLowerChar (c : ascii) : ascii :=
  if isUpper c then ascii_of_nat (nat_of_ascii c + 32) else c.

Fixpoint mapChars (f : ascii -> ascii) (s : string) : string :=
  match s with
  | EmptyString => EmptyString
  | String c r => String (f c) (mapChars f r)
  end.

Definition toUpperCase : string -> string := mapChars toUpperChar.
Definition toLowerCase : string -> string := mapChars toLowerChar.

(** [p.charAt(0).toUpperCase() + p.slice(1)] *)
Definition upperFirst (p : string) : string :=
  match p with
  | EmptyString => EmptyString
  | String c r => String (toUpperChar c) r
  end.

(** [p.charAt(0).toLowerCase() + p.slice(1)] *)
Definition lowerFirst (p : string) : string :=
  match p with
  | EmptyString => EmptyString
  | String c r => String (toLowerChar c) r
  end.

Definition startsWith (s pre : string) : bool := String.prefix pre s.

Fixpoint dropChars (n : nat) (s : string) : string :=
  match n, s with
  | O, _ => s
  | S k, String _ r => dropChars k r
  | S _, EmptyString => EmptyString
  end.

(** [s.endsWith(suf)] *)
Definition endsWith (s suf : string) : bool :=
  Nat.leb (String.length suf) (String.length s)
  && String.eqb (dropChars (String.length s - String.length suf) s) suf.

(** [s.includes(needle)] *)
Fixpoint includes (s needle : string) : bool :=
  String.prefix needle s
  || match s with
     | EmptyString => false
     | String _ r => includes r needle
     end.

(** [s.split(sep)] for a one-character separator: never the empty list. *)
Fixpoint split (sep : ascii) (s : string) : list string :=
  match s with
  | EmptyString => [EmptyString]
  | String c r =>
      if Ascii.eqb c sep then EmptyString :: split sep r
      else match split sep r with
           | h :: t => String c h :: t
           | [] => [String c EmptyString]
           end
  end.

(** [parts.join(sep)] *)
Definition join (sep : string) (parts : list string) : string :=
  String.concat sep parts.

(** The replacement text of [String.prototype.replace] for a string
    pattern: in the replacement, [$$] stands for a dollar, [$&] for the
    matched text, [$`] for what precedes the match and [$'] for what follows
    it; any other dollar is kept as written (a string pattern has no
    capture, so [$1] and [$<name>] are not expanded). *)
Fixpoint getSubstitution (matched before after replacement : string) : string :=
  match replacement with
  | EmptyString => EmptyString
  | String c tl =>
      if Ascii.eqb c "$"%char then
        match tl with
        | EmptyString => String c EmptyString
        | String d r =>
            if Ascii.eqb d "$"%char
            then String "$"%char (getSubstitution matched before after r)
            else if Ascii.eqb d "&"%char
            then matched ++ getSubstitution matched before after r
            else if Ascii.eqb d "`"%char
            then before ++ getSubstitution matched before after r
            else if Ascii.eqb d "'"%char
            then after ++ getSubstitution matched before after r
            else String c (getSubstitution matched before after tl)
        end
      else String c (getSubstitution matched before after tl)
  end.

(** The search of [s.replace(pat, rep)] in what is left of the string,
    [before] being the part already passed. *)
Fixpoint replaceAt (before pat rep s : string) : string :=
  if String.prefix pat s
  then getSubstitution pat before (dropChars (String.length pat) s) rep
       ++ dropChars (String.length pat) s
  else match s with
       | EmptyString => EmptyString
       | String c r => String c (replaceAt (before ++ String c EmptyString) pat rep r)
       end.

(** [s.replace(pat, rep)] with a string pattern: the first occurrence only,
    the replacement patterns expanded. *)
Definition replaceFirst (pat rep s : string) : string :=
  replaceAt EmptyString pat rep s.

(** [arr.map((x, i) => f(x, i))] *)
Fixpoint mapiFrom {A B : Type} (i : nat) (f : A -> nat -> B) (l : list A) : list B :=
  match l with
  | [] => []
  | x :: r => f x i :: mapiFrom (S i) f r
  end.

Definition mapi {A B : Type} (f : A -> nat -> B) (l : list A) : list B :=
  mapiFrom 0 f l.

(** [obj[key]] on the entries of an object. *)
Fixpoint lookup {A : Type} (key : string) (entries : list (string * A)) : option A :=
  match entries with
  | [] => None
  | (k, v) :: r => if String.eqb k key then Some v else lookup key r
  end.

(** Truthiness of an optional string: undefined and "" are falsy. *)
Definition truthy (o : option string) : bool :=
  match o with
  | Some s => negb (String.eqb s "")
  | None => false
  end.

(** [o || dflt] on an optional string. *)
Definition orElse (o : option string) (dflt : string) : string :=
  match o with
  | Some s => if String.eqb s "" then dflt else s
  | None => dflt
  end.

(** [o || false] on an optional boolean. *)
Definition orFalse (o : option bool) : bool :=
  match o with
  | Some b => b
  | None => false
  end.

(** [o === s] on an optional string. *)
Definition isStr (o : option string) (s : string) : bool :=
  match o with
  | Some x => String.eqb x s
  | None => false
  end.

Definition isSome {A : Type} (o : option A) : bool :=
  match o with
  | Some _ => true
  | None => false
  end.

End JsString.

(* ------------------------------------------------------------------ *)
(** ** src/parser.ts *)

Module Parser.
Import JsString.

(** *** The parsed model (the exported interfaces) *)

Record ParsedParameter : Type := mkParsedParameter {
  pp_name : string;
  pp_in : string;                       (* "path" | "query" | "header" | "cookie" *)
  pp_required : bool;
  pp_description : option string;
  pp_type : string;
  pp_format : option string
}.

Inductive ParsedSchema : Type := mkParsedSchema {
  ps_type : string;
  ps_format : option string;
  ps_description : option string;
  ps_properties : option (list (string * ParsedSchema));
  ps_items : option ParsedSchema;
  ps_required : option (list string);
  ps_enum : option (list string);
  ps_nullable : option bool;
  ps_ref : option string
}.

Record ParsedRequestBody : Type := mkParsedRequestBody {
  rb_required : bool;
  rb_description : option string;
  rb_contentType : string;
  rb_schema : ParsedSchema
}.

Record ParsedResponse : Type := mkParsedResponse {
  pr_statusCode : string;
  pr_description : string;
  pr_contentType : option string;
  pr_schema : option ParsedSchema
}.

Record ParsedOperation : Type := mkParsedOperation {
  operationId : string;
  method : string;
  path : string;
  summary : option string;
  description : option string;
  tags : list string;
  parameters : list ParsedParameter;
  requestBody : option ParsedRequestBody;
  responses : list ParsedResponse;
  deprecated : bool
}.

Record ParsedTag : Type := mkParsedTag {
  tag_name : string;
  tag_description : option string
}.

Record ParsedApi : Type := mkParsedApi {
  api_title : string;
  api_version : string;
  api_description : option string;
  api_baseUrl : option string;
  api_operations : list ParsedOperation;
  api_schemas : list (string * ParsedSchema);
  api_tags : list ParsedTag
}.

(** *** The raw document (openapi-types) *)

(** A schema position holds either a ReferenceObject ({ $ref }) or a
    SchemaObject; [isReference] tells them apart by the presence of $ref. *)
Inductive SchemaNode : Type :=
| Reference (ref : string)
| Schema (type_ : option string)
         (description_ : option string)
         (nullable_ : option bool)
         (format_ : option string)
         (enum_ : option (list string))
         (items_ : option SchemaNode)
         (properties_ : option (list (string * SchemaNode)))
         (required_ : option (list string))
         (allOf_ oneOf_ anyOf_ : option (list SchemaNode)).

(** A position that admits a ReferenceObject in place of the object itself. *)
Inductive OrRef (A : Type) : Type :=
| IsRef (ref : string)
| NotRef (a : A).
Arguments IsRef {A} ref.
Arguments NotRef {A} a.

Record ParameterObject : Type := mkParameterObject {
  po_name : string;
  po_in : string;
  po_required : option bool;
  po_description : option string;
  po_schema : option SchemaNode
}.

Record MediaTypeObject : Type := mkMediaTypeObject {
  mt_schema : option SchemaNode
}.

Record RequestBodyObject : Type := mkRequestBodyObject {
  rbo_required : option bool;
  rbo_description : option string;
  rbo_content : list (string * MediaTypeObject)
}.

Record ResponseObject : Type := mkResponseObject {
  ro_description : option string;
  ro_content : option (list (string * MediaTypeObject))
}.

Record OperationObject : Type := mkOperationObject {
  oo_operationId : option string;
  oo_summary : option string;
  oo_description : option string;
  oo_tags : option (list string);
  oo_parameters : option (list (OrRef ParameterObject));
  oo_requestBody : option (OrRef RequestBodyObject);
  oo_responses : option (list (string * OrRef ResponseObject));
  oo_deprecated : option bool
}.

Record PathItemObject : Type := mkPathItemObject {
  pi_parameters : option (list (OrRef ParameterObject));
  pi_get : option OperationObject;
  pi_post : option OperationObject;
  pi_put : option OperationObject;
  pi_patch : option OperationObject;
  pi_delete : option OperationObject;
  pi_head : option OperationObject;
  pi_options : option OperationObject
}.

Record InfoObject : Type := mkInfoObject {
  info_title : string;
  info_version : string;
  info_description : option string
}.

Record TagObject : Type := mkTagObject {
  to_name : string;
  to_description : option string
}.

Record Document : Type := mkDocument {
  doc_info : InfoObject;
  doc_servers : option (list string);         (* the url of each server *)
  doc_paths : option (list (string * option PathItemObject));
  doc_schemas : option (list (string * SchemaNode)); (* components?.schemas *)
  doc_tags : option (list TagObject)
}.

(** *** The functions *)

(** [getRefName]: the last segment of the pointer. *)
Definition getRefName (ref : string) : string :=
  List.last (split "/"%char ref) EmptyString.

(** The first element of an optional array, when it has one:
    ["k" in schema && Array.isArray(schema.k) && schema.k[0]]. *)
Definition firstBranch (branches : option (list SchemaNode)) : option SchemaNode :=
  match branches with
  | Some (b :: _) => Some b
  | _ => None
  end.

(** [parseSchema] on a defined node. *)
Fixpoint parseSchemaNode (schema : SchemaNode) : ParsedSchema :=
  match schema with
  | Reference ref =>
      mkParsedSchema (getRefName ref) None None None None None None None (Some ref)
  | Schema ty desc nullable fmt enum items props required allOf oneOf anyOf =>
      let result_type := if isSome enum then "enum" else orElse ty "object" in
      let result_format := if truthy fmt then fmt else None in
      let result_items :=
        match items with
        | Some it =>
            if isStr ty "array" then Some (parseSchemaNode it)
            else None
        | None => None
        end in
      let is_object := isStr ty "object" || isSome props in
      let result_properties :=
        if is_object then
          Some (match props with
                | Some ps => List.map (fun kv => (fst kv, parseSchemaNode (snd kv))) ps
                | None => []
                end)
        else None in
      let result_required := if is_object then required else None in
      let result :=
        mkParsedSchema result_type result_format desc result_properties
                       result_items result_required enum nullable None in
      match allOf with
      | Some (b :: _) => parseSchemaNode b
      | _ =>
        match oneOf with
        | Some (b :: _) => parseSchemaNode b
        | _ =>
          match anyOf with
          | Some (b :: _) => parseSchemaNode b
          | _ => result
          end
        end
      end
  end.

(** [parseSchema]: an absent schema is the "unknown" type. *)
Definition parseSchema (schema : option SchemaNode) : ParsedSchema :=
  match schema with
  | None => mkParsedSchema "unknown" None None None None None None None None
  | Some s => parseSchemaNode s
  end.

(** [parseParameter] *)
Definition parseParameter (param : ParameterObject) : ParsedParameter :=
  let schema := po_schema param in
  mkParsedParameter
    (po_name param)
    (po_in param)
    (orFalse (po_required param))
    (po_description param)
    (match schema with
     | Some (Schema ty _ _ _ _ _ _ _ _ _ _) => orElse ty "string"
     | _ => "string"
     end)
    (match schema with
     | Some (Schema _ _ _ fmt _ _ _ _ _ _ _) => fmt
     | _ => None
     end).

(** [Object.keys(content).find((ct) => ct.includes("json")) || Object.keys(content)[0]] *)
Definition pickContentType (content : list (string * MediaTypeObject)) : option string :=
  let keys := List.map fst content in
  match List.find (fun ct => includes ct "json") keys with
  | Some ct => Some ct
  | None => List.hd_error keys
  end.

(** [parseRequestBody] *)
Definition parseRequestBody (requestBody : option (OrRef RequestBodyObject))
  : option ParsedRequestBody :=
  match requestBody with
  | None => None
  | Some (IsRef _) => None
  | Some (NotRef body) =>
      let content := rbo_content body in
      let contentType := pickContentType content in
      if negb (truthy contentType) then None
      else
        match contentType with
        | None => None
        | Some ct =>
            match lookup ct content with
            | None => None
            | Some mediaType =>
                Some (mkParsedRequestBody
                        (orFalse (rbo_required body))
                        (rbo_description body)
                        ct
                        (parseSchema (mt_schema mediaType)))
            end
        end
  end.

(** The body of the loop of [parseResponses], for one entry. *)
Definition parseResponse (entry : string * OrRef ResponseObject) : ParsedResponse :=
  let statusCode := fst entry in
  match snd entry with
  | IsRef ref => mkParsedResponse statusCode ("Reference: " ++ ref) None None
  | NotRef resp =>
      let parsed := mkParsedResponse statusCode (orElse (ro_description resp) "") None None in
      match ro_content resp with
      | None => parsed
      | Some content =>
          let contentType := pickContentType content in
          if truthy contentType then
            match contentType with
            | Some ct =>
                match lookup ct content with
                | Some mediaType =>
                    mkParsedResponse statusCode (orElse (ro_description resp) "")
                                     (Some ct) (Some (parseSchema (mt_schema mediaType)))
                | None => parsed
                end
            | None => parsed
            end
          else parsed
      end
  end.

(** [parseResponses] *)
Definition parseResponses (responses : list (string * OrRef ResponseObject))
  : list ParsedResponse :=
  List.map parseResponse responses.

(** [path.split("/").filter((p) => p && !p.startsWith("{"))] *)
Definition nonParameterSegments (path : string) : list string :=
  List.filter (fun p => negb (String.eqb p "") && negb (startsWith p "{"))
              (split "/"%char path).

(** [generateOperationId] *)
Definition generateOperationId (method path : string) : string :=
  let parts :=
    mapi (fun p i => if Nat.eqb i 0 then toLowerCase p else upperFirst p)
         (nonParameterSegments path) in
  toLowerCase method ++ join "" (List.map upperFirst parts).

Definition methods : list string :=
  ["get"; "post"; "put"; "patch"; "delete"; "head"; "options"].

(** [(pathItem as Record<string, unknown>)[method]] for the seven method keys. *)
Definition pathItemMethod (pathItem : PathItemObject) (method : string)
  : option OperationObject :=
  if String.eqb method "get" then pi_get pathItem
  else if String.eqb method "post" then pi_post pathItem
  else if String.eqb method "put" then pi_put pathItem
  else if String.eqb method "patch" then pi_patch pathItem
  else if String.eqb method "delete" then pi_delete pathItem
  else if String.eqb method "head" then pi_head pathItem
  else if String.eqb method "options" then pi_options pathItem
  else None.

(** The loop [for (const p of params) if (!isReference(p)) allParams.push(p)]. *)
Definition pushInline (params : option (list (OrRef ParameterObject)))
  : list ParameterObject :=
  match params with
  | None => []
  | Some ps =>
      List.flat_map (fun p => match p with IsRef _ => [] | NotRef q => [q] end) ps
  end.

(** [allParams]: path-item level first, then operation level. *)
Definition collectParams (pathItem : PathItemObject) (operation : OperationObject)
  : list ParameterObject :=
  pushInline (pi_parameters pathItem) +++ pushInline (oo_parameters operation).

(** [operation.operationId || generateOperationId(method, path)] *)
Definition resolveOperationId (operation : OperationObject) (method path : string)
  : string :=
  match oo_operationId operation with
  | Some id => if String.eqb id "" then generateOperationId method path else id
  | None => generateOperationId method path
  end.

(** The object literal [parsedOp] built for one method of one path item. *)
Definition parseOperation (path : string) (pathItem : PathItemObject)
           (method : string) (operation : OperationObject) : ParsedOperation :=
  mkParsedOperation
    (resolveOperationId operation method path)
    (toUpperCase method)
    path
    (oo_summary operation)
    (oo_description operation)
    (match oo_tags operation with Some ts => ts | None => [] end)
    (List.map parseParameter (collectParams pathItem operation))
    (parseRequestBody (oo_requestBody operation))
    (parseResponses (match oo_responses operation with Some rs => rs | None => [] end))
    (orFalse (oo_deprecated operation)).

(** The operations of one entry of [paths]. *)
Definition parsePathEntry (entry : string * option PathItemObject)
  : list ParsedOperation :=
  match snd entry with
  | None => []
  | Some pathItem =>
      List.flat_map
        (fun method =>
           match pathItemMethod pathItem method with
           | None => []
           | Some operation => [parseOperation (fst entry) pathItem method operation]
           end)
        methods
  end.

(** [parseOpenApiSpec] *)
Definition parseOpenApiSpec (doc : Document) : ParsedApi :=
  let baseUrl :=
    match doc_servers doc with
    | Some (url :: _) => Some url
    | _ => None
    end in
  let paths := match doc_paths doc with Some ps => ps | None => [] end in
  let operations := List.flat_map parsePathEntry paths in
  let schemas :=
    match doc_schemas doc with
    | Some ss => List.map (fun entry => (fst entry, parseSchema (Some (snd entry)))) ss
    | None => []
    end in
  let tags :=
    List.map (fun t => mkParsedTag (to_name t) (to_description t))
             (match doc_tags doc with Some ts => ts | None => [] end) in
  mkParsedApi (info_title (doc_info doc)) (info_version (doc_info doc))
              (info_description (doc_info doc)) baseUrl operations schemas tags.

End Parser.

(* ------------------------------------------------------------------ *)
(** ** Characters that cannot be written inside a string literal *)

Module Chars.
Definition dq : string := String "034"%char EmptyString.   (* the double quote *)
Definition nl : string := String "010"%char EmptyString.   (* the line feed *)
End Chars.

(* ------------------------------------------------------------------ *)
(** ** src/generator/client.ts *)

Module ClientGen.
Import JsString Parser Chars.

(** [str.replace(/[-_](\w)/g, (_, c) => c.toUpperCase())]: scanning from the
    left, a '-' or '_' followed by a word character is replaced, together
    with that character, by the character in upper case. *)
Fixpoint replaceSeparators (s : string) : string :=
  match s with
  | EmptyString => EmptyString
  | String c1 tl =>
      match tl with
      | EmptyString => s
      | String c2 r =>
          if (Ascii.eqb c1 "-"%char || Ascii.eqb c1 "_"%char) && isWordChar c2
          then String (toUpperChar c2) (replaceSeparators r)
          else String c1 (replaceSeparators tl)
      end
  end.

(** [str.replace(/^\w/, (c) => c.toUpperCase())] *)
Definition upperLeadingWord (s : string) : string :=
  match s with
  | EmptyString => EmptyString
  | String c r => if isWordChar c then String (toUpperChar c) r else s
  end.

(** [pascalCase] *)
Definition pascalCase (str : string) : string :=
  upperLeadingWord (replaceSeparators str).

(** [camelCase] *)
Definition camelCase (str : string) : string :=
  lowerFirst (pascalCase str).

(** [op.tags[0] || "default"] *)
Definition firstTag (op : ParsedOperation) : string :=
  orElse (List.hd_error (tags op)) "default".

(** [Map.prototype.set]: an existing key keeps its position. *)
Fixpoint mapSet {A : Type} (key : string) (v : A) (m : list (string * A))
  : list (string * A) :=
  match m with
  | [] => [(key, v)]
  | (k, x) :: r => if String.eqb k key then (k, v) :: r else (k, x) :: mapSet key v r
  end.

(** [groupByTag] *)
Definition groupByTag (operations : list ParsedOperation)
  : list (string * list ParsedOperation) :=
  List.fold_left
    (fun groups op =>
       let tag := firstTag op in
       let existing := match lookup tag groups with Some ops => ops | None => [] end in
       mapSet tag (existing +++ [op]) groups)
    operations [].

Definition getMethodName (op : ParsedOperation) : string :=
  camelCase (operationId op).

Definition getResponseType (op : ParsedOperation) : string :=
  pascalCase (operationId op) ++ "Response".

Definition isQueryOrPath (p : ParsedParameter) : bool :=
  String.eqb (pp_in p) "query" || String.eqb (pp_in p) "path".

Definition getParamsType (op : ParsedOperation) : option string :=
  match List.filter isQueryOrPath (parameters op) with
  | [] => None
  | _ :: _ => Some (pascalCase (operationId op) ++ "Params")
  end.

Definition getRequestType (op : ParsedOperation) : option string :=
  match requestBody op with
  | None => None
  | Some _ => Some (pascalCase (operationId op) ++ "Request")
  end.

(** [generatePathInterpolation] *)
Definition generatePathInterpolation (path : string) (pathParams : list ParsedParameter)
  : string :=
  List.fold_left
    (fun result param =>
       replaceFirst ("{" ++ pp_name param ++ "}")
                    ("${params." ++ pp_name param ++ "}") result)
    pathParams path.

(** [generateQueryBuilder] *)
Definition generateQueryBuilder (queryParams : list ParsedParameter) : list string :=
  match queryParams with
  | [] => []
  | _ :: _ =>
      ["    const queryParams = new URLSearchParams();"]
      +++ List.map
           (fun param =>
              let condition :=
                if pp_required param then ""
                else "if (params." ++ pp_name param ++ " !== undefined) " in
              "    " ++ condition ++ "queryParams.set(" ++ dq ++ pp_name param ++ dq
              ++ ", String(params." ++ pp_name param ++ "));")
           queryParams
      +++ ["    const queryString = queryParams.toString() ? `?${queryParams.toString()}` : "
          ++ dq ++ dq ++ ";"]
  end.

(** The [params] array of [generateMethod]: the arguments of the signature. *)
Definition signatureParams (op : ParsedOperation) : list string :=
  (match getParamsType op with
   | Some paramsType =>
       let allOptional := List.forallb (fun p => negb (pp_required p)) (parameters op) in
       ["params" ++ (if allOptional then "?" else "") ++ ": " ++ paramsType]
   | None => []
   end)
  +++ (match getRequestType op with
      | Some requestType => ["body: " ++ requestType]
      | None => []
      end).

(** The JSDoc block of [generateMethod]. *)
Definition jsDocLines (op : ParsedOperation) : list string :=
  if truthy (summary op) || truthy (description op) then
    ["    /**"]
    +++ (if truthy (summary op) then ["     * " ++ orElse (summary op) ""] else [])
    +++ (if truthy (description op)
           && negb (String.eqb (orElse (description op) "") (orElse (summary op) ""))
        then ["     * " ++ orElse (description op) ""] else [])
    +++ (if deprecated op then ["     * @deprecated"] else [])
    +++ ["     */"]
  else [].

(** The [fetchOptions] array of [generateMethod]. *)
Definition fetchOptions (op : ParsedOperation) : list string :=
  ["method: " ++ dq ++ method op ++ dq]
  +++ (match getRequestType op with
      | Some _ =>
          ["headers: { " ++ dq ++ "Content-Type" ++ dq ++ ": " ++ dq
           ++ "application/json" ++ dq ++ " }";
           "body: JSON.stringify(body)"]
      | None => []
      end).

(** The statement that ends the generated method body. *)
Definition returnLine (op : ParsedOperation) : string :=
  if endsWith (getResponseType op) "void" then "      return;"
  else "      return response.json();".

(** The [lines] array of [generateMethod]. *)
Definition generateMethodLines (op : ParsedOperation) (baseUrlVar : string)
  : list string :=
  let methodName := getMethodName op in
  let responseType := getResponseType op in
  let pathParams := List.filter (fun p => String.eqb (pp_in p) "path") (parameters op) in
  let queryParams := List.filter (fun p => String.eqb (pp_in p) "query") (parameters op) in
  let pathExpr :=
    match pathParams with
    | _ :: _ => "`" ++ generatePathInterpolation (path op) pathParams ++ "`"
    | [] => dq ++ path op ++ dq
    end in
  let queryAppend := match queryParams with _ :: _ => " + queryString" | [] => "" end in
  jsDocLines op
  +++ ["    " ++ methodName ++ ": async (" ++ join ", " (signatureParams op)
      ++ "): Promise<" ++ responseType ++ "> => {"]
  +++ generateQueryBuilder queryParams
  +++ ["      const response = await fetch(" ++ baseUrlVar ++ " + " ++ pathExpr
      ++ queryAppend ++ ", {";
      "        " ++ join ("," ++ nl ++ "        ") (fetchOptions op);
      "      });";
      "";
      "      if (!response.ok) {";
      "        throw new Error(`HTTP ${response.status}: ${response.statusText}`);";
      "      }";
      "";
      returnLine op;
      "    },"].

(** [generateMethod] *)
Definition generateMethod (op : ParsedOperation) (baseUrlVar : string) : string :=
  join nl (generateMethodLines op baseUrlVar).

(** [Set.prototype.add], the set kept in insertion order. *)
Definition setAdd (x : string) (s : list string) : list string :=
  if List.existsb (String.eqb x) s then s else s +++ [x].

(** The [typeImports] set of [generateClient]. *)
Definition typeImports (api : ParsedApi) : list string :=
  List.fold_left
    (fun imports op =>
       let s1 := setAdd (pascalCase (operationId op) ++ "Response") imports in
       let s2 := match getParamsType op with Some t => setAdd t s1 | None => s1 end in
       match getRequestType op with Some t => setAdd t s2 | None => s2 end)
    (api_operations api) [].

(** [if (lines[lines.length - 1] === "") lines.pop()] *)
Definition popIfEmpty (lines : list string) : list string :=
  match List.rev lines with
  | last :: before => if String.eqb last "" then List.rev before else lines
  | [] => lines
  end.

(** The [lines] array of [generateClient]. *)
Definition generateClientLines (api : ParsedApi) (clientName : string) : list string :=
  let header :=
    ["// Auto-generated API client";
     "// Do not edit manually";
     "";
     "import type {";
     "  " ++ join ("," ++ nl ++ "  ") (typeImports api);
     "} from " ++ dq ++ "./types.js" ++ dq ++ ";";
     "";
     "export interface ClientConfig {";
     "  baseUrl: string;";
     "  headers?: Record<string, string>;";
     "}";
     "";
     "export class " ++ clientName ++ " {";
     "  private baseUrl: string;";
     "  private headers: Record<string, string>;";
     "";
     "  constructor(config: ClientConfig) {";
     "    this.baseUrl = config.baseUrl.replace(/\/$/, " ++ dq ++ dq ++ ");";
     "    this.headers = config.headers || {};";
     "  }";
     ""] in
  let withGroups :=
    List.fold_left
      (fun lines group =>
         let tagName := camelCase (fst group) in
         let opened := lines +++ ["  " ++ tagName ++ " = {"] in
         let withMethods :=
           List.fold_left
             (fun ls op => ls +++ [generateMethod op "this.baseUrl"; ""])
             (snd group) opened in
         popIfEmpty withMethods +++ ["  };"; ""])
      (groupByTag (api_operations api)) header in
  withGroups
  +++ ["}";
      "";
      "/**";
      " * Create a new API client instance";
      " */";
      "export function create" ++ clientName ++ "(config: ClientConfig): "
        ++ clientName ++ " {";
      "  return new " ++ clientName ++ "(config);";
      "}";
      ""].

(** [generateClient] *)
Definition generateClient (api : ParsedApi) (clientName : string) : string :=
  join nl (generateClientLines api clientName).

End ClientGen.

(* ------------------------------------------------------------------ *)
(** ** src/generator/types.ts *)

Module TypesGen.
Import JsString Parser Chars.

(** [pascalCase]: the generator's own copy of the helper. *)
Definition pascalCase (str : string) : string :=
  ClientGen.upperLeadingWord (ClientGen.replaceSeparators str).

(** ["  ".repeat(indent)] *)
Fixpoint repeatStr (s : string) (n : nat) : string :=
  match n with
  | O => EmptyString
  | S k => s ++ repeatStr s k
  end.

Definition quoted (v : string) : string := dq ++ v ++ dq.

(** [schema.enum && schema.enum.length > 0] *)
Definition nonEmpty {A : Type} (o : option (list A)) : option (list A) :=
  match o with
  | Some (x :: r) => Some (x :: r)
  | _ => None
  end.

(** [schema.required?.includes(key)] *)
Definition requiredIncludes (required : option (list string)) (key : string) : bool :=
  match required with
  | Some r => List.existsb (String.eqb key) r
  | None => false
  end.

(** The [switch (schema.type)] of [schemaToTsType]. *)
Definition primitiveTsType (type format : string) : string :=
  if String.eqb type "string" then
    if String.eqb format "date" || String.eqb format "date-time" then "string"
    else if String.eqb format "binary" then "Blob"
    else "string"
  else if String.eqb type "integer" || String.eqb type "number" then "number"
  else if String.eqb type "boolean" then "boolean"
  else if String.eqb type "object" then "Record<string, unknown>"
  else if String.eqb type "null" then "null"
  else "unknown".

(** [schemaToTsType] *)
Fixpoint schemaToTsType (schema : ParsedSchema) (indent : nat) : string :=
  let spaces := repeatStr "  " indent in
  match schema with
  | mkParsedSchema type format _ properties items required enum _ ref =>
      let objectOrPrimitive :=
        match properties with
        | Some ((_ :: _) as entries) =>
            let props :=
              join nl
                (List.map
                   (fun entry =>
                      let key := fst entry in
                      let prop := snd entry in
                      let optional :=
                        if negb (requiredIncludes required key) then "?" else "" in
                      let propType := schemaToTsType prop (S indent) in
                      let comment :=
                        if truthy (ps_description prop)
                        then spaces ++ "  /** "
                             ++ orElse (ps_description prop) "" ++ " */" ++ nl
                        else "" in
                      comment ++ spaces ++ "  " ++ key ++ optional ++ ": "
                      ++ propType ++ ";")
                   entries) in
            "{" ++ nl ++ props ++ nl ++ spaces ++ "}"
        | _ => primitiveTsType type (orElse format "")
        end in
      if truthy ref then type
      else
        match nonEmpty enum with
        | Some vs => join " | " (List.map quoted vs)
        | None =>
            match items with
            | Some it =>
                if String.eqb type "array" then schemaToTsType it indent ++ "[]"
                else objectOrPrimitive
            | None => objectOrPrimitive
            end
        end
  end.

(** [generateInterface] *)
Definition generateInterface (name : string) (schema : ParsedSchema) : string :=
  let descLines :=
    if truthy (ps_description schema)
    then ["/** " ++ orElse (ps_description schema) "" ++ " */"] else [] in
  match nonEmpty (ps_enum schema) with
  | Some vs =>
      join nl (descLines
               +++ ["export type " ++ name ++ " = " ++ join " | " (List.map quoted vs) ++ ";"])
  | None =>
      match nonEmpty (ps_properties schema) with
      | Some entries =>
          join nl
            (descLines
             +++ ["export interface " ++ name ++ " {"]
             +++ List.flat_map
                   (fun entry =>
                      let key := fst entry in
                      let prop := snd entry in
                      let optional :=
                        if negb (requiredIncludes (ps_required schema) key) then "?" else "" in
                      let propType := schemaToTsType prop 1 in
                      (if truthy (ps_description prop)
                       then ["  /** " ++ orElse (ps_description prop) "" ++ " */"] else [])
                      +++ ["  " ++ key ++ optional ++ ": " ++ propType ++ ";"])
                   entries
             +++ ["}"])
      | None =>
          join nl (descLines
                   +++ ["export type " ++ name ++ " = " ++ schemaToTsType schema 0 ++ ";"])
      end
  end.

(** The [switch (param.type)] of [generateParamsInterface]. *)
Definition paramTsType (type : string) : string :=
  if String.eqb type "integer" || String.eqb type "number" then "number"
  else if String.eqb type "boolean" then "boolean"
  else if String.eqb type "array" then "string[]"
  else "string".

(** [generateParamsInterface] *)
Definition generateParamsInterface (operation : ParsedOperation) : option string :=
  match List.filter ClientGen.isQueryOrPath (parameters operation) with
  | [] => None
  | params =>
      let interfaceName := pascalCase (operationId operation) ++ "Params" in
      Some (join nl
              (["export interface " ++ interfaceName ++ " {"]
               +++ List.flat_map
                     (fun param =>
                        let optional := if negb (pp_required param) then "?" else "" in
                        (if truthy (pp_description param)
                         then ["  /** " ++ orElse (pp_description param) "" ++ " */"]
                         else [])
                        +++ ["  " ++ pp_name param ++ optional ++ ": "
                             ++ paramTsType (pp_type param) ++ ";"])
                     params
               +++ ["}"]))
  end.

(** [generateRequestBodyInterface] *)
Definition generateRequestBodyInterface (operation : ParsedOperation) : option string :=
  match requestBody operation with
  | None => None
  | Some body =>
      let interfaceName := pascalCase (operationId operation) ++ "Request" in
      let schema := rb_schema body in
      if truthy (ps_ref schema)
      then Some ("export type " ++ interfaceName ++ " = " ++ ps_type schema ++ ";")
      else Some (generateInterface interfaceName schema)
  end.

(** [operation.responses.find((r) => r.statusCode.startsWith("2") && r.schema)] *)
Definition successResponse (operation : ParsedOperation) : option ParsedResponse :=
  List.find (fun r => startsWith (pr_statusCode r) "2" && isSome (pr_schema r))
            (responses operation).

(** [generateResponseType] *)
Definition generateResponseType (operation : ParsedOperation) : string :=
  match match successResponse operation with
        | Some r => pr_schema r
        | None => None
        end with
  | None => "export type " ++ pascalCase (operationId operation) ++ "Response = void;"
  | Some schema =>
      let typeName := pascalCase (operationId operation) ++ "Response" in
      if truthy (ps_ref schema)
      then "export type " ++ typeName ++ " = " ++ ps_type schema ++ ";"
      else
        match (if String.eqb (ps_type schema) "array" then ps_items schema else None) with
        | Some it =>
            if truthy (ps_ref it)
            then "export type " ++ typeName ++ " = " ++ ps_type it ++ "[];"
            else "export type " ++ typeName ++ " = " ++ schemaToTsType schema 0 ++ ";"
        | None => "export type " ++ typeName ++ " = " ++ schemaToTsType schema 0 ++ ";"
        end
  end.

(** The lines pushed by [generateTypes] for one operation. *)
Definition operationTypeLines (operation : ParsedOperation) : list string :=
  (match generateParamsInterface operation with
   | Some paramsInterface => [paramsInterface; ""]
   | None => []
   end)
  +++ (match generateRequestBodyInterface operation with
       | Some requestInterface => [requestInterface; ""]
       | None => []
       end)
  +++ [generateResponseType operation; ""].

(** The [lines] array of [generateTypes]. *)
Definition generateTypesLines (api : ParsedApi) : list string :=
  ["// Auto-generated TypeScript types";
   "// Do not edit manually";
   "";
   "// ============ Schemas ============";
   ""]
  +++ List.flat_map (fun entry => [generateInterface (fst entry) (snd entry); ""])
                    (api_schemas api)
  +++ ["// ============ Operation Types ============";
       ""]
  +++ List.flat_map operationTypeLines (api_operations api).

(** [generateTypes] *)
Definition generateTypes (api : ParsedApi) : string :=
  join nl (generateTypesLines api).

End TypesGen.

(* ------------------------------------------------------------------ *)
(** ** src/fetcher.ts *)

Module Fetcher.
Import JsString Chars.

(** Common locations where OpenAPI specs are typically found. *)
Definition SPEC_DISCOVERY_PATHS : list string :=
  ["/openapi.json";
   "/openapi.yaml";
   "/swagger.json";
   "/swagger.yaml";
   "/api-docs";
   "/v3/api-docs";
   "/v2/api-docs";
   "/api/v3/openapi.json";
   "/api/v3/openapi.yaml";
   "/api/v2/swagger.json";
   "/docs/openapi.json";
   "/docs/swagger.json";
   "/api/openapi.json";
   "/api/swagger.json";
   "/.well-known/openapi.json"].

Section World.

(** The parsed body of a response (a JSON or YAML value) and the
    validated document. *)
Variable Data : Type.
Variable Spec : Type.

(** [typeof data === "object" && data !== null], and the two version
    fields when they are strings. *)
Variable isObject : Data -> bool.
Variable openapiField : Data -> option string.
Variable swaggerField : Data -> option string.

(** The network: [fetchAndParse n url] is the outcome of the fetch of [url]
    made after [n] earlier fetches of the run, either the message of the
    error thrown or the parsed body. *)
Variable fetchAndParse : nat -> string -> string + Data.

(** [SwaggerParser.validate]: the error thrown or the validated document. *)
Variable validate : Data -> string + Spec.

(** [new URL(url)]: the protocol and the host, or nothing when it throws. *)
Variable parseURL : string -> option (string * string).

Record FetchResult : Type := mkFetchResult {
  spec : Spec;
  sourceUrl : string
}.

(** [isOpenApiSpec] *)
Definition isOpenApiSpec (data : Data) : bool :=
  if negb (isObject data) then false
  else if match openapiField data with
          | Some v => startsWith v "3."
          | None => false
          end then true
  else if match swaggerField data with
          | Some v => startsWith v "2."
          | None => false
          end then true
  else false.

(** [getBaseUrl] *)
Definition getBaseUrl (url : string) : string :=
  match parseURL url with
  | Some (protocol, host) => protocol ++ "//" ++ host
  | None => url
  end.

(** The loop of [discoverSpec] over the remaining paths; [n] counts the
    fetches already made.  The result is the console output and the value
    returned. *)
Fixpoint discoverFrom (n : nat) (baseUrl : string) (paths : list string)
  : list string * option FetchResult :=
  match paths with
  | [] => ([], None)
  | path :: rest =>
      let fullUrl := baseUrl ++ path in
      let trying := "  Trying: " ++ fullUrl in
      let next := discoverFrom (S n) baseUrl rest in
      match fetchAndParse n fullUrl with
      | inl _ => (trying :: fst next, snd next)
      | inr data =>
          if isOpenApiSpec data then
            match validate data with
            | inr validated =>
                ([trying; "  ✓ Found valid OpenAPI spec!"],
                 Some (mkFetchResult validated fullUrl))
            | inl _ =>
                (trying :: "  ✓ Found valid OpenAPI spec!" :: fst next, snd next)
            end
          else (trying :: fst next, snd next)
      end
  end.

(** [discoverSpec] *)
Definition discoverSpec (n : nat) (baseUrl : string)
  : list string * option FetchResult :=
  let found := discoverFrom n baseUrl SPEC_DISCOVERY_PATHS in
  ((nl ++ "Attempting to discover OpenAPI spec at common locations...") :: fst found,
   snd found).

(** The message of the error thrown when every attempt failed. *)
Definition notFoundMessage (url baseUrl : string) : string :=
  "Could not find an OpenAPI specification." ++ nl ++ nl
  ++ "Tried:" ++ nl
  ++ "  1. Direct URL: " ++ url ++ nl
  ++ "  2. Discovery at common paths under: " ++ baseUrl ++ nl ++ nl
  ++ "Please ensure the URL points to a valid OpenAPI 3.x or Swagger 2.x specification,"
  ++ nl
  ++ "or that the API exposes a spec at a standard location.".

(** What the direct attempt of [fetchOpenApiSpec] leaves: its console
    output and the result when it returned. *)
Definition directAttempt (url : string) : list string * option FetchResult :=
  match fetchAndParse 0 url with
  | inl message => (["✗ Could not fetch from URL: " ++ message], None)
  | inr data =>
      if isOpenApiSpec data then
        match validate data with
        | inr validated =>
            (["✓ Valid OpenAPI spec found at provided URL"],
             Some (mkFetchResult validated url))
        | inl message =>
            (["✓ Valid OpenAPI spec found at provided URL";
              "✗ Could not fetch from URL: " ++ message], None)
        end
      else (["✗ URL does not contain a valid OpenAPI/Swagger spec"], None)
  end.

(** [fetchOpenApiSpec]: the console output, and the error thrown (its
    message) or the result. *)
Definition fetchOpenApiSpec (url : string) : list string * (string + FetchResult) :=
  let direct := directAttempt url in
  match snd direct with
  | Some result => (("Fetching: " ++ url) :: fst direct, inr result)
  | None =>
      let baseUrl := getBaseUrl url in
      let discovered := discoverSpec 1 baseUrl in
      let log := (("Fetching: " ++ url) :: fst direct) +++ fst discovered in
      match snd discovered with
      | Some result => (log, inr result)
      | None => (log, inl (notFoundMessage url baseUrl))
      end
  end.

(** The attempt on [url], made after [n] earlier fetches, yields no
    validated document: the fetch throws, or the body is not a
    specification, or the validator rejects it. *)
Definition attemptFails (n : nat) (url : string) : Prop :=
  match fetchAndParse n url with
  | inl _ => True
  | inr data =>
      if isOpenApiSpec data
      then match validate data with inl _ => True | inr _ => False end
      else True
  end.

(** The console lines that announce a probe. *)
Definition isTrying (line : string) : bool := startsWith line "  Trying: ".

(** The attempt on [url], made after [n] earlier fetches, yields the
    validated document [validated]. *)
Definition attemptSucceeds (n : nat) (url : string) (validated : Spec) : Prop :=
  exists data,
    fetchAndParse n url = inr data
    /\ isOpenApiSpec data = true
    /\ validate data = inr validated.

End World.

End Fetcher.

(* ------------------------------------------------------------------ *)
(** ** src/server.ts: the search for a free port *)

Module Server.

(** The two ways the search ends without a port: the error
    [findAvailablePort] throws itself, with its message, and the RangeError
    that [server.listen(port)] throws for a port outside 0..65535. *)
Inductive SearchError : Type :=
| NoAvailablePort (message : string)
| ListenRangeError (port : nat).

Section Ports.

(** [listens i port]: whether the test server of the attempt of index [i]
    manages to listen on [port] (the "listening" event, not "error"). *)
Variable listens : nat -> nat -> bool.

Definition maxAttempts : nat := 100.

(** The first number that is not a port: 65536. *)
Definition portLimit : nat := 256 * 256.

(** The loop of [findAvailablePort]: [i] attempts made, [remaining] left. *)
Fixpoint findFrom (i remaining port : nat) : SearchError + nat :=
  match remaining with
  | O => inl (NoAvailablePort "Could not find available port after 100 attempts")
  | S r =>
      if Nat.leb portLimit port then inl (ListenRangeError port)
      else if listens i port then inr port
      else findFrom (S i) r (S port)
  end.

(** [findAvailablePort]: the port found, or the error thrown. *)
Definition findAvailablePort (startPort : nat) : SearchError + nat :=
  findFrom 0 maxAttempts startPort.

End Ports.

End Server.

(* ------------------------------------------------------------------ *)
(** ** src/generator/docs.ts: table cells, parameter tables, quick start *)

Module DocsGen.
Import JsString Parser Chars.

(** [str.replace(/\|/g, "\\|")]: a backslash before every pipe. *)
Fixpoint escapePipes (s : string) : string :=
  match s with
  | EmptyString => EmptyString
  | String c r =>
      if Ascii.eqb c "|"%char then String "\"%char (String "|"%char (escapePipes r))
      else String c (escapePipes r)
  end.

(** [str.replace(/\n/g, " ")] *)
Fixpoint spaceNewlines (s : string) : string :=
  match s with
  | EmptyString => EmptyString
  | String c r =>
      String (if Ascii.eqb c "010"%char then " "%char else c) (spaceNewlines r)
  end.

(** [escapeMarkdown] *)
Definition escapeMarkdown (str : string) : string :=
  spaceNewlines (escapePipes str).

(** The row of [generateParamTable] for one parameter. *)
Definition paramRow (param : ParsedParameter) : string :=
  let required := if pp_required param then "Yes" else "No" in
  let description :=
    if truthy (pp_description param)
    then escapeMarkdown (orElse (pp_description param) "")
    else "-" in
  "| `" ++ pp_name param ++ "` | `" ++ pp_type param ++ "` | " ++ required
  ++ " | " ++ pp_in param ++ " | " ++ description ++ " |".

(** [generateParamTable] *)
Definition generateParamTable (params : list ParsedParameter) : list string :=
  match params with
  | [] => []
  | _ :: _ =>
      ["";
       "| Parameter | Type | Required | Location | Description |";
       "|-----------|------|----------|----------|-------------|"]
      +++ List.map paramRow params
  end.

(** [str.replace(/^\w/, (c) => c.toLowerCase())] *)
Definition lowerLeadingWord (s : string) : string :=
  match s with
  | EmptyString => EmptyString
  | String c r => if isWordChar c then String (toLowerChar c) r else s
  end.

(** The [methodName] of [generateQuickStart]. *)
Definition quickStartMethodName (operationId : string) : string :=
  lowerLeadingWord (ClientGen.replaceSeparators operationId).

(** [api.operations.find((op) => op.method === "GET" && op.parameters.length === 0)] *)
Definition quickStartOperation (api : ParsedApi) : option ParsedOperation :=
  List.find (fun op => String.eqb (method op) "GET"
                       && Nat.eqb (List.length (parameters op)) 0)
            (api_operations api).

(** [generateQuickStart] *)
Definition generateQuickStart (api : ParsedApi) (clientName : string) : list string :=
  ["## Quick Start";
   "";
   "### Installation";
   "";
   "Copy the generated `types.ts` and `client.ts` files to your project.";
   "";
   "### Usage";
   "";
   "```typescript";
   "import { create" ++ clientName ++ " } from " ++ dq ++ "./client.js" ++ dq ++ ";";
   "";
   "const api = create" ++ clientName ++ "({";
   "  baseUrl: " ++ dq ++ orElse (api_baseUrl api) "https://api.example.com" ++ dq ++ ",";
   "});";
   ""]
  +++ (match quickStartOperation api with
       | Some getOp =>
           let tag := orElse (List.hd_error (tags getOp)) "default" in
           let methodName := quickStartMethodName (operationId getOp) in
           ["// Example: " ++ (if truthy (summary getOp)
                               then orElse (summary getOp) ""
                               else operationId getOp);
            "const result = await api." ++ toLowerCase tag ++ "." ++ methodName ++ "();";
            "console.log(result);"]
       | None => []
       end)
  +++ ["```"; ""].

End DocsGen.

(* ------------------------------------------------------------------ *)
(** ** The command line: the name of the client class *)

Module Cli.
Import JsString.

(** [str.replace(/[.-](\w)/g, (_, c) => c.toUpperCase())] *)
Fixpoint replaceDots (s : string) : string :=
  match s with
  | EmptyString => EmptyString
  | String c1 tl =>
      match tl with
      | EmptyString => s
      | String c2 r =>
          if (Ascii.eqb c1 "."%char || Ascii.eqb c1 "-"%char) && isWordChar c2
          then String (toUpperChar c2) (replaceDots r)
          else String c1 (replaceDots tl)
      end
  end.

(** [pascalCase], the copy of the command line: it splits on '.' and '-'. *)
Definition pascalCase (str : string) : string :=
  ClientGen.upperLeadingWord (replaceDots str).

(** [pascalCase(originName) + "Client"], the client name handed to the
    generators. *)
Definition clientNameFor (originName : string) : string :=
  pascalCase originName ++ "Client".

End Cli.

(* ------------------------------------------------------------------ *)
(** ** Vocabulary of the statements *)

Module Vocabulary.
Import JsString Parser Chars.

(** Structural induction over schema nodes, through the nested lists. *)
Section SchemaNodeInduction.

Variable P : SchemaNode -> Prop.

Definition onOption (o : option SchemaNode) : Prop :=
  match o with
  | Some s => P s
  | None => True
  end.

Definition onBranches (o : option (list SchemaNode)) : Prop :=
  match o with
  | Some bs => List.Forall P bs
  | None => True
  end.

Definition onProperties (o : option (list (string * SchemaNode))) : Prop :=
  match o with
  | Some ps => List.Forall (fun kv => P (snd kv)) ps
  | None => True
  end.

Hypothesis reference_case : forall ref, P (Reference ref).

Hypothesis schema_case :
  forall ty desc nullable fmt enum items props required allOf oneOf anyOf,
    onOption items -> onProperties props ->
    onBranches allOf -> onBranches oneOf -> onBranches anyOf ->
    P (Schema ty desc nullable fmt enum items props required allOf oneOf anyOf).

Fixpoint SchemaNode_nested_ind (s : SchemaNode) : P s :=
  let branches :=
    fix go (bs : list SchemaNode) : List.Forall P bs :=
      match bs with
      | [] => List.Forall_nil P
      | b :: r => List.Forall_cons b (SchemaNode_nested_ind b) (go r)
      end in
  let entries :=
    fix go (ps : list (string * SchemaNode)) : List.Forall (fun kv => P (snd kv)) ps :=
      match ps with
      | [] => List.Forall_nil _
      | kv :: r => List.Forall_cons kv (SchemaNode_nested_ind (snd kv)) (go r)
      end in
  match s with
  | Reference ref => reference_case ref
  | Schema ty desc nullable fmt enum items props required allOf oneOf anyOf =>
      schema_case ty desc nullable fmt enum items props required allOf oneOf anyOf
        (match items as o return onOption o with
         | Some it => SchemaNode_nested_ind it
         | None => I
         end)
        (match props as o return onProperties o with
         | Some ps => entries ps
         | None => I
         end)
        (match allOf as o return onBranches o with
         | Some bs => branches bs
         | None => I
         end)
        (match oneOf as o return onBranches o with
         | Some bs => branches bs
         | None => I
         end)
        (match anyOf as o return onBranches o with
         | Some bs => branches bs
         | None => I
         end)
  end.

End SchemaNodeInduction.

(** [Within r x]: [r] is [x] or one of the schemas nested in it, as the
    items of an array or the value of a property. *)
Inductive Within (r : ParsedSchema) : ParsedSchema -> Prop :=
| within_self : Within r r
| within_items (x it : ParsedSchema) :
    ps_items x = Some it -> Within r it -> Within r x
| within_property (x : ParsedSchema) (ps : list (string * ParsedSchema))
                  (k : string) (v : ParsedSchema) :
    ps_properties x = Some ps -> List.In (k, v) ps -> Within r v -> Within r x.

(** The [result] object [parseSchema] builds for an inline node, before it
    looks at the composition keywords. *)
Definition inlineResult (ty desc : option string) (nullable : option bool)
           (fmt : option string) (enum : option (list string))
           (items : option SchemaNode) (props : option (list (string * SchemaNode)))
           (required : option (list string)) : ParsedSchema :=
  parseSchemaNode (Schema ty desc nullable fmt enum items props required None None None).

(** The branch the composition keywords select: the first element of the
    first of [allOf], [oneOf], [anyOf] that has one. *)
Definition selectedBranch (allOf oneOf anyOf : option (list SchemaNode))
  : option SchemaNode :=
  match firstBranch allOf with
  | Some b => Some b
  | None =>
      match firstBranch oneOf with
      | Some b => Some b
      | None => firstBranch anyOf
      end
  end.

(** A schema that names a reference and has no inline shape. *)
Definition OnlyReference (r : ParsedSchema) : Prop :=
  ps_enum r = None /\ ps_items r = None /\ ps_properties r = None
  /\ ps_required r = None /\ ps_format r = None.

(** The capitalised parts of a synthesized operation id: the first kept
    segment is lowered as a whole, then every part gets a capital initial. *)
Definition synthesizedParts (segments : list string) : list string :=
  match segments with
  | [] => []
  | first :: rest => upperFirst (toLowerCase first) :: List.map upperFirst rest
  end.

(** An operation node of the raw document: the operation declared for
    [method] by the path item at [path]. *)
Definition OperationNode (doc : Document) (path : string) (pathItem : PathItemObject)
           (method : string) (operation : OperationObject) : Prop :=
  exists paths,
    doc_paths doc = Some paths
    /\ List.In (path, Some pathItem) paths
    /\ List.In method methods
    /\ pathItemMethod pathItem method = Some operation.

(** [pre] ends a line: what follows it starts a line of its own. *)
Definition StartsLine (pre : string) : Prop :=
  pre = "" \/ exists before, pre = before ++ nl.

(** [BlockDeclares block name]: some line of the emitted [block] begins
    with the declaration of the type [name]. *)
Definition BlockDeclares (block name : string) : Prop :=
  exists pre post,
    StartsLine pre
    /\ (block = pre ++ "export type " ++ name ++ " = " ++ post
        \/ block = pre ++ "export interface " ++ name ++ " {" ++ post).

(** [Declares text name]: some line of [text], after the first, begins with
    the declaration of the type [name]. *)
Definition Declares (text name : string) : Prop :=
  exists pre post,
    text = pre ++ nl ++ "export type " ++ name ++ " = " ++ post
    \/ text = pre ++ nl ++ "export interface " ++ name ++ " {" ++ post.

(** The type names a generated method mentions in its signature. *)
Definition signatureTypes (op : ParsedOperation) : list string :=
  ClientGen.getResponseType op
  :: (match ClientGen.getParamsType op with Some t => [t] | None => [] end)
  +++ (match ClientGen.getRequestType op with Some t => [t] | None => [] end).

End Vocabulary.

(* ------------------------------------------------------------------ *)
(** ** Concrete documents used as instances *)

Module Instances.
Import JsString Parser.

Definition noPathItem : PathItemObject :=
  mkPathItemObject None None None None None None None None.

Definition noOperation : OperationObject :=
  mkOperationObject None None None None None None None None.

Definition docWithPaths (paths : list (string * option PathItemObject)) : Document :=
  mkDocument (mkInfoObject "Example" "1.0.0" None) None (Some paths) None None.

Definition stringSchema : SchemaNode :=
  Schema (Some "string") None None None None None None None None None None.

(** GET /pet/{petId} whose path parameter says [required: false]. *)
Definition optionalPathParam : ParameterObject :=
  mkParameterObject "petId" "path" (Some false) None (Some stringSchema).

Definition getPetById : OperationObject :=
  mkOperationObject (Some "getPetById") None None None
                    (Some [NotRef optionalPathParam]) None None None.

Definition optionalPathDoc : Document :=
  docWithPaths
    [("/pet/{petId}",
      Some (mkPathItemObject None (Some getPetById) None None None None None None))].

(** A parameter [id] declared by the path item and again by the operation. *)
Definition pathLevelId : ParameterObject :=
  mkParameterObject "id" "query" (Some false) (Some "path level") (Some stringSchema).

Definition operationLevelId : ParameterObject :=
  mkParameterObject "id" "query" (Some true) (Some "operation level") (Some stringSchema).

Definition listItems : OperationObject :=
  mkOperationObject (Some "listItems") None None None
                    (Some [NotRef operationLevelId]) None None None.

Definition shadowingItem : PathItemObject :=
  mkPathItemObject (Some [NotRef pathLevelId]) (Some listItems)
                   None None None None None None.

Definition shadowingDoc : Document := docWithPaths [("/items", Some shadowingItem)].

(** Two operations resolving to [getPet]: one by synthesis, one explicitly. *)
Definition explicitGetPet : OperationObject :=
  mkOperationObject (Some "getPet") None None None None None None None.

Definition duplicateIdDoc : Document :=
  docWithPaths
    [("/pet",
      Some (mkPathItemObject None (Some noOperation) None None None None None None));
     ("/animal",
      Some (mkPathItemObject None (Some explicitGetPet) None None None None None None))].

(** An object schema that also carries an enum. *)
Definition enumObject : SchemaNode :=
  Schema (Some "object") None None None (Some ["a"; "b"]) None
         (Some [("x", stringSchema)]) None None None None.

(** [allOf: [A, B]] with [A] a reference. *)
Definition refA : SchemaNode := Reference "#/components/schemas/A".
Definition refB : SchemaNode := Reference "#/components/schemas/B".

Definition allOfAB : SchemaNode :=
  Schema None None None None None None None None (Some [refA; refB]) None None.

(** POST /pets whose request body is a reference object. *)
Definition createPet : OperationObject :=
  mkOperationObject (Some "createPet") None None None None
                    (Some (IsRef "#/components/requestBodies/Pet")) None None.

Definition createPetItem : PathItemObject :=
  mkPathItemObject None None (Some createPet) None None None None None.

Definition referencedBodyDoc : Document := docWithPaths [("/pets", Some createPetItem)].

(** DELETE /pet/{petId}: no response with a schema. *)
Definition deletePet : ParsedOperation :=
  mkParsedOperation "deletePet" "DELETE" "/pet/{petId}" None None ["pet"]
    [mkParsedParameter "petId" "path" true None "integer" (Some "int64")]
    None
    [mkParsedResponse "200" "Pet deleted" None None;
     mkParsedResponse "400" "Invalid pet value" None None]
    false.

Definition deletePetApi : ParsedApi :=
  mkParsedApi "Petstore" "1.0.0" None None [deletePet] [] [].

(** A host where every fetch answers 404. *)
Definition deadFetch (n : nat) (url : string) : string + unit :=
  inl "HTTP 404: Not Found".

Definition rejectAll (data : unit) : string + unit := inl "not a specification".

Definition exampleParseURL (url : string) : option (string * string) :=
  if startsWith url "https://api.example.com"
  then Some ("https:", "api.example.com")
  else None.

Definition exampleUrl : string := "https://api.example.com/docs".

Definition deadFetchOpenApiSpec (url : string)
  : list string * (string + Fetcher.FetchResult unit) :=
  Fetcher.fetchOpenApiSpec unit unit (fun _ => false) (fun _ => None) (fun _ => None)
                           deadFetch rejectAll exampleParseURL url.

End Instances.

(* ------------------------------------------------------------------ *)
(** ** Further instances *)

Module MoreInstances.
Import JsString Parser.

(** A host that serves a specification at /api-docs only, the fifth probe. *)
Definition fifthProbeFetch (n : nat) (url : string) : string + unit :=
  if String.eqb url "https://api.example.com/api-docs" then inr tt
  else inl "HTTP 404: Not Found".

Definition acceptAll (data : unit) : string + unit := inr data.

Definition fifthProbeFetchOpenApiSpec (url : string)
  : list string * (string + Fetcher.FetchResult unit) :=
  Fetcher.fetchOpenApiSpec unit unit (fun _ => true) (fun _ => Some "3.0.3")
                           (fun _ => None) fifthProbeFetch acceptAll
                           Instances.exampleParseURL url.

End MoreInstances.

(* ------------------------------------------------------------------ *)
(** ** Further vocabulary *)

Module MoreVocabulary.
Import JsString Parser.

(** The operation belongs to the group of [tag]. *)
Definition hasTag (tag : string) (op : ParsedOperation) : bool :=
  String.eqb (ClientGen.firstTag op) tag.

(** Every character of the string satisfies [p]. *)
Fixpoint allChars (p : ascii -> bool) (s : string) : bool :=
  match s with
  | EmptyString => true
  | String c r => p c && allChars p r
  end.

(** A letter or a digit. *)
Definition isAlnum (c : ascii) : bool := isUpper c || isLower c || isDigit c.

(** A non-empty word of letters and digits. *)
Definition isWord (w : string) : bool :=
  negb (String.eqb w "") && allChars isAlnum w.

(** The first character of the string, if any, satisfies [p]. *)
Definition firstChar (p : ascii -> bool) (s : string) : bool :=
  match s with
  | EmptyString => true
  | String c _ => p c
  end.

(** An ASCII character (code below 128), on which the case conversions of
    the model are those of JavaScript. *)
Definition isAsciiChar (c : ascii) : bool := Nat.ltb (nat_of_ascii c) 128.

(** The string has no occurrence of the character [c]. *)
Definition lacks (c : ascii) (s : string) : bool :=
  allChars (fun x => negb (Ascii.eqb x c)) s.

(** The route of an operation: its path template and its method. *)
Definition operationKey (op : ParsedOperation) : string * string :=
  (path op, method op).

(** The operation with its list of responses replaced. *)
Definition withResponses (op : ParsedOperation) (rs : list ParsedResponse)
  : ParsedOperation :=
  mkParsedOperation (operationId op) (method op) (path op) (summary op)
                    (description op) (tags op) (parameters op) (requestBody op)
                    rs (deprecated op).

(** The response counts as the success response of its operation. *)
Definition qualifies (r : ParsedResponse) : bool :=
  startsWith (pr_statusCode r) "2" && isSome (pr_schema r).

(** The line of a Params interface that declares the parameter. *)
Definition paramFieldLine (p : ParsedParameter) : string :=
  "  " ++ pp_name p ++ (if pp_required p then "" else "?") ++ ": "
  ++ TypesGen.paramTsType (pp_type p) ++ ";".

(** Every pipe of the string stands right after a backslash;
    [afterBackslash] tells whether the string itself does. *)
Fixpoint pipesGuarded (afterBackslash : bool) (s : string) : bool :=
  match s with
  | EmptyString => true
  | String c r =>
      (if Ascii.eqb c "|"%char then afterBackslash else true)
      && pipesGuarded (Ascii.eqb c "\"%char) r
  end.

(** The body of the loop of [groupByTag]. *)
Definition groupStep (groups : list (string * list ParsedOperation)) (op : ParsedOperation)
  : list (string * list ParsedOperation) :=
  ClientGen.mapSet (ClientGen.firstTag op)
    ((match lookup (ClientGen.firstTag op) groups with Some ops => ops | None => [] end)
       +++ [op])
    groups.

(** The operations stored under [tag], none when the key is absent. *)
Definition groupOf (tag : string) (groups : list (string * list ParsedOperation))
  : list ParsedOperation :=
  match lookup tag groups with Some ops => ops | None => [] end.

(** No group is empty. *)
Definition noEmptyGroup (groups : list (string * list ParsedOperation)) : Prop :=
  forall tag, lookup tag groups <> Some [].

End MoreVocabulary.

(* ------------------------------------------------------------------ *)
(** ** Facts about the string primitives *)

Module JsStringFacts.
Import JsString.

Lemma append_nil_r (s : string) : s ++ "" = s.
Proof. induction s as [|c r IH]; simpl; [reflexivity | now rewrite IH]. Qed.

Lemma append_assoc (a b c : string) : (a ++ b) ++ c = a ++ (b ++ c).
Proof. induction a as [|x r IH]; simpl; [reflexivity | now rewrite IH]. Qed.

Lemma length_append (a b : string) :
  String.length (a ++ b) = String.length a + String.length b.
Proof. induction a as [|x r IH]; simpl; [reflexivity | now rewrite IH]. Qed.

Lemma prefix_refl_append (x b : string) : String.prefix x (x ++ b) = true.
Proof.
  induction x as [|c r IH]; simpl.
  - now destruct b.
  - destruct (Ascii.ascii_dec c c) as [e|ne]; [exact IH | now elim ne].
Qed.

Lemma includes_prefix (s x : string) : String.prefix x s = true -> includes s x = true.
Proof. intros H. destruct s; cbn [includes]; rewrite H; reflexivity. Qed.

Lemma includes_append (a x b : string) : includes (a ++ x ++ b) x = true.
Proof.
  induction a as [|c r IH].
  - change ("" ++ x ++ b) with (x ++ b).
    apply includes_prefix, prefix_refl_append.
  - change ((String c r) ++ x ++ b) with (String c (r ++ x ++ b)).
    cbn [includes]. rewrite IH. apply orb_true_r.
Qed.

Lemma dropChars_append (a b : string) (k : nat) :
  dropChars (String.length a + k) (a ++ b) = dropChars k b.
Proof. induction a as [|c r IH]; simpl; [reflexivity | exact IH]. Qed.

(** A suffix test on [a ++ b] only looks at [b] when [b] is long enough. *)
Lemma endsWith_append (a b suf : string) :
  String.length suf <= String.length b ->
  endsWith (a ++ b) suf = endsWith b suf.
Proof.
  intros Hlen. unfold endsWith. rewrite length_append.
  replace (String.length a + String.length b - String.length suf)
    with (String.length a + (String.length b - String.length suf)) by lia.
  rewrite dropChars_append.
  f_equal.
  destruct (Nat.leb_spec (String.length suf) (String.length b)); [|lia].
  destruct (Nat.leb_spec (String.length suf) (String.length a + String.length b));
    [reflexivity | lia].
Qed.

Lemma toUpperChar_idem (c : ascii) : toUpperChar (toUpperChar c) = toUpperChar c.
Proof. destruct c as [[] [] [] [] [] [] [] []]; reflexivity. Qed.

Lemma upperFirst_idem (p : string) : upperFirst (upperFirst p) = upperFirst p.
Proof. destruct p as [|c r]; simpl; [reflexivity | now rewrite toUpperChar_idem]. Qed.

(** Outside the word characters, upper-casing changes nothing. *)
Lemma toUpperChar_nonword (c : ascii) : isWordChar c = false -> toUpperChar c = c.
Proof. destruct c as [[] [] [] [] [] [] [] []]; vm_compute; congruence. Qed.

Lemma toLowerChar_fixed (c : ascii) : isUpper c = false -> toLowerChar c = c.
Proof. unfold toLowerChar. now intros ->. Qed.

Lemma mapiFrom_const {A B : Type} (g : A -> B) (f : A -> nat -> B) (l : list A) (i : nat) :
  (forall x j, i <= j -> f x j = g x) -> mapiFrom i f l = List.map g l.
Proof.
  revert i. induction l as [|x r IH]; intros i H; simpl; [reflexivity|].
  rewrite (H x i) by lia. f_equal. apply IH. intros y j Hj. apply H. lia.
Qed.

Lemma snoc_not_nil {A : Type} (l : list A) (x : A) : l +++ [x] <> [].
Proof. destruct l; discriminate. Qed.

Lemma join_cons (sep x : string) (l : list string) :
  l <> [] -> join sep (x :: l) = x ++ sep ++ join sep l.
Proof. destruct l; [congruence | reflexivity]. Qed.

(** Joining a list around one of its elements. *)
Lemma join_middle (sep x : string) (l1 l2 : list string) :
  l1 <> [] ->
  exists post, join sep (l1 +++ x :: l2) = join sep l1 ++ sep ++ x ++ post.
Proof.
  induction l1 as [|a r IH]; intros Hne; [congruence|].
  destruct r as [|b r'].
  - simpl. destruct l2 as [|y l2'].
    + exists "". now rewrite !append_nil_r.
    + exists (sep ++ join sep (y :: l2')). reflexivity.
  - destruct IH as [post Hpost]; [congruence|].
    exists post.
    change ((a :: b :: r') +++ x :: l2) with (a :: ((b :: r') +++ x :: l2)).
    rewrite join_cons by (simpl; congruence).
    rewrite Hpost. rewrite (@join_cons sep a (b :: r')) by congruence.
    now rewrite !append_assoc.
Qed.

End JsStringFacts.

(* ------------------------------------------------------------------ *)
(** ** The normalizer *)

Module ParserProps.
Import JsString Parser Vocabulary Instances JsStringFacts.

(** Every operation of the IR comes from an operation node of the
    document, and every node yields its operation. *)
Lemma operations_origin (doc : Document) (op : ParsedOperation) :
  List.In op (api_operations (parseOpenApiSpec doc)) <->
  exists path pathItem method operation,
    OperationNode doc path pathItem method operation
    /\ op = parseOperation path pathItem method operation.
Proof.
  unfold parseOpenApiSpec, OperationNode. cbn [api_operations].
  rewrite in_flat_map. split.
  - intros [[path [pathItem|]] [Hentry Hop]];
      unfold parsePathEntry in Hop; cbn [fst snd] in Hop; [|contradiction].
    apply in_flat_map in Hop. destruct Hop as [m [Hm Hop]].
    destruct (pathItemMethod pathItem m) as [operation|] eqn:E; [|contradiction].
    destruct Hop as [<-|[]].
    exists path, pathItem, m, operation.
    destruct (doc_paths doc) as [paths|]; [|contradiction].
    split; [|reflexivity]. exists paths. auto.
  - intros (path & pathItem & m & operation & (paths & Hp & Hin & Hm & Hop) & ->).
    rewrite Hp. exists (path, Some pathItem). split; [exact Hin|].
    unfold parsePathEntry. cbn [fst snd]. apply in_flat_map.
    exists m. split; [exact Hm|]. rewrite Hop. now left.
Qed.

(** C2, as the code has it: an operation of the IR is the normalization of
    its own operation node, and its parameters are, one for one and in
    order, the parameters collected for that node, each keeping the name
    and the location of its source parameter and taking as required flag
    the source flag, false when the source omits it; the location plays no
    part, so a path parameter is required in the IR exactly when the source
    declares [required: true]. *)
Theorem required_flag_is_copied (doc : Document) (op : ParsedOperation)
        (p : ParsedParameter) :
  List.In op (api_operations (parseOpenApiSpec doc)) ->
  List.In p (parameters op) ->
  exists path pathItem method operation src,
    OperationNode doc path pathItem method operation
    /\ op = parseOperation path pathItem method operation
    /\ List.In src (collectParams pathItem operation)
    /\ p = parseParameter src
    /\ pp_name p = po_name src
    /\ pp_in p = po_in src
    /\ pp_required p = orFalse (po_required src)
    /\ List.Forall2
         (fun source parsed =>
            pp_name parsed = po_name source
            /\ pp_in parsed = po_in source
            /\ pp_required parsed = orFalse (po_required source))
         (collectParams pathItem operation) (parameters op).
Proof.
  intros Hop Hp.
  apply operations_origin in Hop.
  destruct Hop as (path & pathItem & m & operation & Hnode & ->).
  cbn [parameters parseOperation] in Hp |- *.
  apply in_map_iff in Hp. destruct Hp as (src & <- & Hsrc).
  exists path, pathItem, m, operation, src.
  repeat (split; [first [exact Hnode | exact Hsrc | reflexivity]|]).
  clear Hsrc.
  induction (collectParams pathItem operation) as [|s r IH]; cbn [List.map].
  - constructor.
  - constructor; [repeat split | exact IH].
Qed.

(** C2, an instance: the optional path parameter of GET /pet/{petId}. *)
Lemma required_flag_is_copied_witness :
  exists path pathItem method operation src,
    OperationNode optionalPathDoc path pathItem method operation
    /\ parseOperation "/pet/{petId}"
         (mkPathItemObject None (Some getPetById) None None None None None None)
         "get" getPetById
       = parseOperation path pathItem method operation
    /\ List.In src (collectParams pathItem operation)
    /\ parseParameter optionalPathParam = parseParameter src
    /\ "petId" = po_name src
    /\ "path" = po_in src
    /\ false = orFalse (po_required src)
    /\ List.Forall2
         (fun source parsed =>
            pp_name parsed = po_name source
            /\ pp_in parsed = po_in source
            /\ pp_required parsed = orFalse (po_required source))
         (collectParams pathItem operation)
         [parseParameter optionalPathParam].
Proof.
  apply (@required_flag_is_copied optionalPathDoc
           (parseOperation "/pet/{petId}"
              (mkPathItemObject None (Some getPetById) None None None None None None)
              "get" getPetById)
           (parseParameter optionalPathParam)).
  - cbn. left. reflexivity.
  - cbn. left. reflexivity.
Defined.

(** C2, refuted as stated: normalize keeps a path parameter optional when
    the source says [required: false]. *)
Lemma path_parameter_left_optional :
  exists op p,
    List.In op (api_operations (parseOpenApiSpec optionalPathDoc))
    /\ List.In p (parameters op)
    /\ pp_in p = "path"
    /\ pp_required p = false.
Proof.
  eexists. eexists. split; [cbn; left; reflexivity|].
  split; [cbn; left; reflexivity|]. split; reflexivity.
Qed.

(** C3, as the code has it: an operation of the IR is the normalization of
    its own operation node, and its parameter list is the path-item-level
    parameters of that node followed by its operation-level parameters, in
    declaration order, reference entries left out, each converted on its
    own; nothing is merged or removed by name. *)
Theorem parameters_are_concatenated (doc : Document) (op : ParsedOperation) :
  List.In op (api_operations (parseOpenApiSpec doc)) ->
  exists path pathItem method operation,
    OperationNode doc path pathItem method operation
    /\ op = parseOperation path pathItem method operation
    /\ parameters op
       = List.map parseParameter (pushInline (pi_parameters pathItem))
         +++ List.map parseParameter (pushInline (oo_parameters operation))
    /\ List.length (parameters op)
       = List.length (pushInline (pi_parameters pathItem))
         + List.length (pushInline (oo_parameters operation)).
Proof.
  intros Hop. apply operations_origin in Hop.
  destruct Hop as (path & pathItem & m & operation & Hnode & ->).
  exists path, pathItem, m, operation. split; [exact Hnode|]. split; [reflexivity|].
  cbn [parameters parseOperation]. unfold collectParams.
  split; [apply map_app|]. now rewrite length_map, length_app.
Qed.

(** C3, an instance: GET /items of the document that declares [id] twice. *)
Lemma parameters_are_concatenated_witness :
  exists path pathItem method operation,
    OperationNode shadowingDoc path pathItem method operation
    /\ parseOperation "/items" shadowingItem "get" listItems
       = parseOperation path pathItem method operation
    /\ parameters (parseOperation "/items" shadowingItem "get" listItems)
       = List.map parseParameter (pushInline (pi_parameters pathItem))
         +++ List.map parseParameter (pushInline (oo_parameters operation))
    /\ List.length (parameters (parseOperation "/items" shadowingItem "get" listItems))
       = List.length (pushInline (pi_parameters pathItem))
         + List.length (pushInline (oo_parameters operation)).
Proof.
  apply (@parameters_are_concatenated shadowingDoc
           (parseOperation "/items" shadowingItem "get" listItems)).
  cbn. left. reflexivity.
Defined.

(** C3, refuted as stated: a name declared at both levels appears twice,
    the path-level declaration first and not shadowed. *)
Lemma same_name_parameter_kept_twice :
  exists op,
    List.In op (api_operations (parseOpenApiSpec shadowingDoc))
    /\ List.map pp_name (parameters op) = ["id"; "id"]
    /\ List.map pp_description (parameters op)
       = [Some "path level"; Some "operation level"]
    /\ ~ List.NoDup (List.map pp_name (parameters op)).
Proof.
  eexists. split; [cbn; left; reflexivity|].
  split; [reflexivity|]. split; [reflexivity|].
  cbn. intros H. inversion H as [|x l Hnotin _]. apply Hnotin. now left.
Qed.

(** Upper-casing tells the seven method keys apart. *)
Lemma toUpperCase_methods_inj (m1 m2 : string) :
  List.In m1 methods -> List.In m2 methods ->
  toUpperCase m1 = toUpperCase m2 -> m1 = m2.
Proof.
  unfold methods. cbn [List.In]. intros H1 H2.
  repeat (destruct H1 as [<-|H1]); try contradiction;
    repeat (destruct H2 as [<-|H2]); try contradiction;
    vm_compute; congruence.
Qed.

(** C4, as the code has it: normalize has no failure case and makes no
    uniqueness check; two distinct operation nodes that resolve to the same
    identifier both stay in the IR, as two operations carrying that
    identifier unchanged. *)
Theorem duplicate_ids_are_kept (doc : Document)
        (path1 path2 : string) (item1 item2 : PathItemObject)
        (m1 m2 : string) (o1 o2 : OperationObject) :
  OperationNode doc path1 item1 m1 o1 ->
  OperationNode doc path2 item2 m2 o2 ->
  (path1, m1) <> (path2, m2) ->
  resolveOperationId o1 m1 path1 = resolveOperationId o2 m2 path2 ->
  exists op1 op2,
    List.In op1 (api_operations (parseOpenApiSpec doc))
    /\ List.In op2 (api_operations (parseOpenApiSpec doc))
    /\ op1 <> op2
    /\ operationId op1 = resolveOperationId o1 m1 path1
    /\ operationId op2 = operationId op1.
Proof.
  intros N1 N2 Hdiff Hid.
  exists (parseOperation path1 item1 m1 o1), (parseOperation path2 item2 m2 o2).
  split; [apply operations_origin; eauto 10|].
  split; [apply operations_origin; eauto 10|].
  split.
  - intros Heq. apply Hdiff.
    assert (Hp : path1 = path2) by exact (f_equal path Heq).
    assert (Hm : toUpperCase m1 = toUpperCase m2) by exact (f_equal method Heq).
    destruct N1 as (? & _ & _ & Hin1 & _), N2 as (? & _ & _ & Hin2 & _).
    rewrite Hp, (toUpperCase_methods_inj m1 m2 Hin1 Hin2 Hm). reflexivity.
  - split; [reflexivity|]. cbn [operationId parseOperation]. now rewrite Hid.
Qed.

(** C4, an instance: GET /pet (synthesized id) and GET /animal (explicit
    id) both resolve to [getPet]. *)
Lemma duplicate_ids_are_kept_witness :
  exists op1 op2,
    List.In op1 (api_operations (parseOpenApiSpec duplicateIdDoc))
    /\ List.In op2 (api_operations (parseOpenApiSpec duplicateIdDoc))
    /\ op1 <> op2
    /\ operationId op1 = "getPet"
    /\ operationId op2 = operationId op1.
Proof.
  apply (@duplicate_ids_are_kept duplicateIdDoc "/pet" "/animal"
           (mkPathItemObject None (Some noOperation) None None None None None None)
           (mkPathItemObject None (Some explicitGetPet) None None None None None None)
           "get" "get" noOperation explicitGetPet).
  - eexists. split; [reflexivity|]. split; [left; reflexivity|].
    split; [left; reflexivity | reflexivity].
  - eexists. split; [reflexivity|]. split; [right; left; reflexivity|].
    split; [left; reflexivity | reflexivity].
  - intros H. discriminate H.
  - reflexivity.
Defined.

(** *** Schemas *)

(** [parseSchema] on an inline node: the selected branch, or the node's
    own result. *)
Lemma parseSchemaNode_schema ty desc nullable fmt enum items props required
      allOf oneOf anyOf :
  parseSchemaNode
    (Schema ty desc nullable fmt enum items props required allOf oneOf anyOf)
  = match selectedBranch allOf oneOf anyOf with
    | Some b => parseSchemaNode b
    | None => inlineResult ty desc nullable fmt enum items props required
    end.
Proof.
  unfold selectedBranch, inlineResult, firstBranch.
  destruct allOf as [[|? ?]|], oneOf as [[|? ?]|], anyOf as [[|? ?]|]; reflexivity.
Qed.

Lemma inlineResult_items ty desc nullable fmt enum items props required it :
  ps_items (inlineResult ty desc nullable fmt enum items props required) = Some it ->
  exists node, items = Some node /\ it = parseSchemaNode node.
Proof.
  unfold inlineResult. cbn [parseSchemaNode ps_items].
  destruct items as [node|]; [|discriminate].
  destruct (isStr ty "array"); [|discriminate].
  intros [= <-]. eauto.
Qed.

Lemma inlineResult_properties ty desc nullable fmt enum items props required ps k v :
  ps_properties (inlineResult ty desc nullable fmt enum items props required) = Some ps ->
  List.In (k, v) ps ->
  exists entries node,
    props = Some entries /\ List.In (k, node) entries /\ v = parseSchemaNode node.
Proof.
  unfold inlineResult. cbn [parseSchemaNode ps_properties].
  destruct (isStr ty "object" || isSome props); [|discriminate].
  intros [= <-] Hin.
  destruct props as [entries|]; [|contradiction].
  apply in_map_iff in Hin. destruct Hin as ([k' node] & [= <- <-] & Hin).
  exists entries, node. auto.
Qed.

Lemma Within_inv (r x : ParsedSchema) :
  Within r x ->
  r = x
  \/ (exists it, ps_items x = Some it /\ Within r it)
  \/ (exists ps k v, ps_properties x = Some ps /\ List.In (k, v) ps /\ Within r v).
Proof. destruct 1; eauto 10. Qed.

Lemma selectedBranch_covered (P : SchemaNode -> Prop) allOf oneOf anyOf b :
  selectedBranch allOf oneOf anyOf = Some b ->
  onBranches P allOf -> onBranches P oneOf -> onBranches P anyOf -> P b.
Proof.
  unfold selectedBranch, firstBranch, onBranches.
  destruct allOf as [[|a ?]|]; destruct oneOf as [[|o ?]|];
    destruct anyOf as [[|y ?]|]; intros [= <-] Ha Ho Hy;
    solve [ now inversion Ha | now inversion Ho | now inversion Hy ].
Qed.

Lemma reference_only_node (s : SchemaNode) (r : ParsedSchema) :
  Within r (parseSchemaNode s) -> ps_ref r <> None -> OnlyReference r.
Proof.
  revert r. induction s using SchemaNode_nested_ind; intros r HW Href.
  - apply Within_inv in HW.
    destruct HW as [->|[(it & H & _)|(ps & k & v & H & _)]];
      [repeat split | discriminate H | discriminate H].
  - rename H into IHitems, H0 into IHprops, H1 into IHall, H2 into IHone, H3 into IHany.
    rewrite parseSchemaNode_schema in HW.
    destruct (selectedBranch allOf oneOf anyOf) as [b|] eqn:Hsel.
    + revert r HW Href.
      exact (selectedBranch_covered _ allOf oneOf anyOf b Hsel IHall IHone IHany).
    + apply Within_inv in HW.
      destruct HW as [->|[(it & Hit & HW)|(ps & k & v & Hps & Hin & HW)]].
      * now elim Href.
      * apply inlineResult_items in Hit. destruct Hit as (node & -> & ->).
        exact (IHitems r HW Href).
      * destruct (inlineResult_properties _ _ _ _ _ _ _ _ _ _ _ Hps Hin)
          as (entries & node & -> & Hnode & ->).
        cbn [onProperties] in IHprops. rewrite Forall_forall in IHprops.
        exact (IHprops (k, node) Hnode r HW Href).
Qed.

(** C5, as the code has it: every schema normalize produces, nested ones
    included, that carries a reference carries no enum values, no array
    items, no object properties, no required list and no format: it is
    never at once a reference and an inline shape.  (An inline schema takes
    its enum values, items and properties from the source node one by one,
    and may carry several of them.) *)
Theorem reference_excludes_inline_shape (schema : option SchemaNode) (r : ParsedSchema) :
  Within r (parseSchema schema) ->
  ps_ref r <> None ->
  OnlyReference r.
Proof.
  destruct schema as [s|]; cbn [parseSchema].
  - apply reference_only_node.
  - intros HW Href. apply Within_inv in HW.
    destruct HW as [->|[(it & H & _)|(ps & k & v & H & _)]];
      [now elim Href | discriminate H | discriminate H].
Qed.

(** C5, an instance: the first branch of [allOf: [A, B]]. *)
Lemma reference_excludes_inline_shape_witness :
  OnlyReference (parseSchema (Some allOfAB)).
Proof.
  apply (@reference_excludes_inline_shape (Some allOfAB)).
  - apply within_self.
  - cbn. discriminate.
Defined.

(** C5, refuted as stated: an object node with an enum is normalized to a
    schema that has both enum values and properties. *)
Lemma enum_and_properties_together :
  ps_enum (parseSchema (Some enumObject)) = Some ["a"; "b"]
  /\ (exists entry, ps_properties (parseSchema (Some enumObject)) = Some [entry])
  /\ ps_type (parseSchema (Some enumObject)) = "enum".
Proof. split; [reflexivity|]. split; [eexists; reflexivity | reflexivity]. Qed.

(** C7: a node that carries a composition keyword with a first branch is
    normalized to exactly the normalization of the selected first branch,
    the first of allOf, oneOf, anyOf that has one; the other branches and
    the node's own fields play no part.  In particular [allOf: [A, B]] with
    [A] a reference normalizes as the bare reference to [A]. *)
Theorem first_branch_policy ty desc nullable fmt enum items props required
        allOf oneOf anyOf :
  firstBranch allOf <> None \/ firstBranch oneOf <> None \/ firstBranch anyOf <> None ->
  (exists b,
     selectedBranch allOf oneOf anyOf = Some b
     /\ (firstBranch allOf = Some b
         \/ firstBranch oneOf = Some b
         \/ firstBranch anyOf = Some b)
     /\ parseSchema
          (Some (Schema ty desc nullable fmt enum items props required allOf oneOf anyOf))
        = parseSchema (Some b))
  /\ parseSchema (Some allOfAB) = parseSchema (Some refA).
Proof.
  intros Hcarries. split; [|reflexivity].
  cbn [parseSchema]. rewrite parseSchemaNode_schema.
  unfold selectedBranch.
  destruct (firstBranch allOf) as [a|] eqn:Ea; [exists a; auto|].
  destruct (firstBranch oneOf) as [o|] eqn:Eo; [exists o; auto|].
  destruct (firstBranch anyOf) as [y|] eqn:Ey; [exists y; auto|].
  exfalso. destruct Hcarries as [H|[H|H]]; now apply H.
Qed.

(** C7, an instance: [allOf: [A, B]]. *)
Lemma first_branch_policy_witness :
  (exists b,
     selectedBranch (Some [refA; refB]) None None = Some b
     /\ (firstBranch (Some [refA; refB]) = Some b
         \/ firstBranch None = Some b
         \/ firstBranch None = Some b)
     /\ parseSchema (Some allOfAB) = parseSchema (Some b))
  /\ parseSchema (Some allOfAB) = parseSchema (Some refA).
Proof.
  apply (@first_branch_policy None None None None None None None None
           (Some [refA; refB]) None None).
  left. cbn. discriminate.
Defined.

(** *** Operation identifiers *)

(** The parts [generateOperationId] joins: the first segment in lower case
    with a capital initial, the others with a capital initial. *)
Lemma generateOperationId_parts (method path : string) :
  generateOperationId method path
  = toLowerCase method ++ join "" (synthesizedParts (nonParameterSegments path)).
Proof.
  unfold generateOperationId, synthesizedParts, mapi.
  destruct (nonParameterSegments path) as [|p rest]; [reflexivity|].
  cbn [mapiFrom List.map Nat.eqb]. do 3 f_equal.
  rewrite (mapiFrom_const upperFirst) by (intros x [|j] Hj; [lia | reflexivity]).
  rewrite map_map. apply map_ext. intros x. apply upperFirst_idem.
Qed.

Lemma upperFirst_pascalCase (p : string) :
  ClientGen.replaceSeparators p = p -> upperFirst p = ClientGen.pascalCase p.
Proof.
  intros H. unfold ClientGen.pascalCase. rewrite H.
  destruct p as [|c r]; [reflexivity|]. cbn.
  destruct (isWordChar c) eqn:E; [reflexivity|].
  now rewrite toUpperChar_nonword.
Qed.

(** Where the claim's wording and the code meet: when the first kept
    segment is already in lower case and no kept segment has a '-' or '_'
    before a word character, the synthesized id is the lower-case method
    followed by the PascalCase of each kept segment. *)
Lemma synthesized_id_pascal_on_plain_paths (method path : string) :
  (forall p, List.In p (nonParameterSegments path) -> ClientGen.replaceSeparators p = p) ->
  match nonParameterSegments path with
  | first :: _ => toLowerCase first = first
  | [] => True
  end ->
  generateOperationId method path
  = toLowerCase method
    ++ join "" (List.map ClientGen.pascalCase (nonParameterSegments path)).
Proof.
  intros Hplain Hfirst. rewrite generateOperationId_parts. do 2 f_equal.
  unfold synthesizedParts.
  destruct (nonParameterSegments path) as [|p rest]; [reflexivity|].
  cbn [List.map]. rewrite Hfirst. f_equal.
  - apply upperFirst_pascalCase, Hplain. now left.
  - apply map_ext_in. intros x Hx. apply upperFirst_pascalCase, Hplain. now right.
Qed.

(** C6, as the code has it: for an operation node without an explicit id,
    the id is the lower-case method followed by the path segments that are
    non-empty and do not start with '{', each with its first character in
    upper case and the rest as written, except the first of them, which is
    put in lower case as a whole before its first character is raised.
    GET /pet/{petId}/uploadImage gives getPetUploadImage and
    POST /user/createWithList gives postUserCreateWithList. *)
Theorem synthesized_id_shape (path : string) (pathItem : PathItemObject)
        (method : string) (operation : OperationObject) :
  oo_operationId operation = None ->
  operationId (parseOperation path pathItem method operation)
  = toLowerCase method ++ join "" (synthesizedParts (nonParameterSegments path))
  /\ generateOperationId "GET" "/pet/{petId}/uploadImage" = "getPetUploadImage"
  /\ generateOperationId "POST" "/user/createWithList" = "postUserCreateWithList".
Proof.
  intros Hid. split; [|split; reflexivity].
  cbn [operationId parseOperation]. unfold resolveOperationId. rewrite Hid.
  apply generateOperationId_parts.
Qed.

(** C6, an instance: GET /pet of the document with two [getPet]. *)
Lemma synthesized_id_shape_witness :
  operationId (parseOperation "/pet" noPathItem "get" noOperation)
  = toLowerCase "get" ++ join "" (synthesizedParts (nonParameterSegments "/pet"))
  /\ generateOperationId "GET" "/pet/{petId}/uploadImage" = "getPetUploadImage"
  /\ generateOperationId "POST" "/user/createWithList" = "postUserCreateWithList".
Proof.
  apply (@synthesized_id_shape "/pet" noPathItem "get" noOperation).
  reflexivity.
Defined.

(** C6, refuted as stated: for GET /userInfo the synthesized id is
    getUserinfo, not get followed by the PascalCase of the segment. *)
Lemma first_segment_is_lowered :
  operationId (parseOperation "/userInfo" noPathItem "get" noOperation) = "getUserinfo"
  /\ toLowerCase "get"
     ++ join "" (List.map ClientGen.pascalCase (nonParameterSegments "/userInfo"))
     = "getUserInfo"
  /\ operationId (parseOperation "/userInfo" noPathItem "get" noOperation)
     <> toLowerCase "get"
        ++ join "" (List.map ClientGen.pascalCase (nonParameterSegments "/userInfo")).
Proof. split; [reflexivity|]. split; [reflexivity|]. vm_compute. discriminate. Qed.

End ParserProps.

(* ------------------------------------------------------------------ *)
(** ** The renderers *)

Module RendererProps.
Import JsString Parser Chars Vocabulary Instances JsStringFacts.

(** The two renderers use the same [pascalCase]. *)
Lemma pascalCase_shared (s : string) : TypesGen.pascalCase s = ClientGen.pascalCase s.
Proof. reflexivity. Qed.

(** *** The void response type *)

Lemma find_none_iff {A : Type} (f : A -> bool) (l : list A) :
  List.find f l = None <-> (forall x, List.In x l -> f x = false).
Proof.
  split; [apply find_none|].
  induction l as [|a r IH]; intros H; [reflexivity|].
  cbn. rewrite (H a) by now left. apply IH. intros x Hx. apply H. now right.
Qed.

(** The name of a response type never ends in "void". *)
Lemma getResponseType_not_void (op : ParsedOperation) :
  endsWith (ClientGen.getResponseType op) "void" = false.
Proof.
  unfold ClientGen.getResponseType.
  rewrite endsWith_append by (cbn; lia). reflexivity.
Qed.

Lemma returnLine_json (op : ParsedOperation) :
  ClientGen.returnLine op = "      return response.json();".
Proof. unfold ClientGen.returnLine. now rewrite getResponseType_not_void. Qed.

Lemma last_two_lines (A B C : list string) (x1 x2 x3 x4 x5 x6 x7 x8 r e : string) :
  A +++ B +++ C +++ [x1; x2; x3; x4; x5; x6; x7; x8; r; e]
  = (A +++ B +++ C +++ [x1; x2; x3; x4; x5; x6; x7; x8]) +++ [r; e].
Proof. now rewrite <- !app_assoc. Qed.

Lemma generateMethodLines_end (op : ParsedOperation) (baseUrlVar : string) :
  exists before,
    ClientGen.generateMethodLines op baseUrlVar
    = before +++ [ClientGen.returnLine op; "    },"].
Proof.
  unfold ClientGen.generateMethodLines. eexists. apply last_two_lines.
Qed.

(** C1, what the code does: for an operation with no response whose status
    code begins with "2" and which carries a schema, the Type Renderer
    declares the response type as void, while the generated client method
    still ends with [return response.json();]: the void test looks at the
    name of the response type, which always ends in "Response". *)
Theorem void_response_still_deserialized (op : ParsedOperation) (baseUrlVar : string) :
  (forall r, List.In r (responses op) ->
             startsWith (pr_statusCode r) "2" = true -> pr_schema r = None) ->
  TypesGen.generateResponseType op
  = "export type " ++ TypesGen.pascalCase (operationId op) ++ "Response = void;"
  /\ exists before,
       ClientGen.generateMethodLines op baseUrlVar
       = before +++ ["      return response.json();"; "    },"].
Proof.
  intros Hvoid. split.
  - unfold TypesGen.generateResponseType, TypesGen.successResponse.
    replace (List.find _ (responses op)) with (@None ParsedResponse); [reflexivity|].
    symmetry. apply find_none_iff. intros r Hr.
    destruct (startsWith (pr_statusCode r) "2") eqn:E; [|reflexivity].
    now rewrite (Hvoid r Hr E).
  - rewrite <- (returnLine_json op). apply generateMethodLines_end.
Qed.

(** C1, an instance: DELETE /pet/{petId} of the Petstore. *)
Lemma void_response_still_deserialized_witness :
  TypesGen.generateResponseType deletePet = "export type DeletePetResponse = void;"
  /\ exists before,
       ClientGen.generateMethodLines deletePet "this.baseUrl"
       = before +++ ["      return response.json();"; "    },"].
Proof.
  apply (@void_response_still_deserialized deletePet "this.baseUrl").
  intros r [<-|[<-|[]]] _; reflexivity.
Defined.

(** *** Duplicate identifiers reach the artifacts *)

(** C4, refuted as stated: the document with two operations resolving to
    [getPet] is normalized and rendered without failure; the IR holds both,
    the types artifact declares [GetPetResponse] twice, and the client
    imports it and defines the method [getPet]. *)
Lemma duplicate_ids_are_rendered :
  List.map operationId (api_operations (parseOpenApiSpec duplicateIdDoc))
  = ["getPet"; "getPet"]
  /\ List.map path (api_operations (parseOpenApiSpec duplicateIdDoc))
     = ["/pet"; "/animal"]
  /\ ClientGen.typeImports (parseOpenApiSpec duplicateIdDoc) = ["GetPetResponse"]
  /\ includes (ClientGen.generateClient (parseOpenApiSpec duplicateIdDoc) "ApiClient")
              "    getPet: async (): Promise<GetPetResponse> => {" = true
  /\ TypesGen.generateTypes (parseOpenApiSpec duplicateIdDoc)
     = "// Auto-generated TypeScript types
// Do not edit manually

// ============ Schemas ============

// ============ Operation Types ============

export type GetPetResponse = void;

export type GetPetResponse = void;
".
Proof. repeat split; vm_compute; reflexivity. Qed.

(** *** Request bodies *)

(** C10: an operation node whose request body is a reference object, or
    whose content map has no entry, is normalized to an operation without
    request body, and the method generated for it has no body argument and
    sends no body. *)
Theorem referenced_body_is_dropped (doc : Document) (path : string)
        (pathItem : PathItemObject) (method : string) (operation : OperationObject) :
  OperationNode doc path pathItem method operation ->
  (exists ref, oo_requestBody operation = Some (IsRef ref))
  \/ (exists body, oo_requestBody operation = Some (NotRef body) /\ rbo_content body = []) ->
  exists op,
    List.In op (api_operations (parseOpenApiSpec doc))
    /\ op = parseOperation path pathItem method operation
    /\ requestBody op = None
    /\ ClientGen.getRequestType op = None
    /\ (forall arg, List.In arg (ClientGen.signatureParams op) ->
                    startsWith arg "body" = false)
    /\ ClientGen.fetchOptions op = ["method: " ++ dq ++ toUpperCase method ++ dq].
Proof.
  intros Hnode Hbody.
  exists (parseOperation path pathItem method operation).
  split; [apply ParserProps.operations_origin; eauto 10|].
  split; [reflexivity|].
  assert (Hnone : requestBody (parseOperation path pathItem method operation) = None).
  { cbn [requestBody parseOperation].
    destruct Hbody as [[ref ->]|(body & -> & Hcontent)]; [reflexivity|].
    cbn [parseRequestBody]. unfold pickContentType. rewrite Hcontent. reflexivity. }
  split; [exact Hnone|].
  assert (Htype : ClientGen.getRequestType (parseOperation path pathItem method operation)
                  = None).
  { unfold ClientGen.getRequestType. now rewrite Hnone. }
  split; [exact Htype|]. split.
  - intros arg. unfold ClientGen.signatureParams. rewrite Htype, app_nil_r.
    destruct (ClientGen.getParamsType _); [|contradiction].
    intros [<-|[]]. reflexivity.
  - unfold ClientGen.fetchOptions. rewrite Htype. reflexivity.
Qed.

(** C10, an instance: POST /pets with a referenced request body. *)
Lemma referenced_body_is_dropped_witness :
  exists op,
    List.In op (api_operations (parseOpenApiSpec referencedBodyDoc))
    /\ op = parseOperation "/pets" createPetItem "post" createPet
    /\ requestBody op = None
    /\ ClientGen.getRequestType op = None
    /\ (forall arg, List.In arg (ClientGen.signatureParams op) ->
                    startsWith arg "body" = false)
    /\ ClientGen.fetchOptions op = ["method: " ++ dq ++ toUpperCase "post" ++ dq].
Proof.
  apply (@referenced_body_is_dropped referencedBodyDoc "/pets" createPetItem "post"
           createPet).
  - eexists. split; [reflexivity|]. split; [left; reflexivity|].
    split; [right; left; reflexivity | reflexivity].
  - left. eexists. reflexivity.
Defined.

(** *** Type names shared by the two artifacts *)

Lemma in_setAdd (x y : string) (s : list string) :
  List.In x (ClientGen.setAdd y s) <-> x = y \/ List.In x s.
Proof.
  unfold ClientGen.setAdd.
  destruct (List.existsb (String.eqb y) s) eqn:E.
  - split; [auto|]. intros [->|H]; [|exact H].
    apply existsb_exists in E. destruct E as (z & Hz & Hyz).
    apply String.eqb_eq in Hyz. now subst.
  - rewrite in_app_iff. cbn. intuition congruence.
Qed.

(** One step of the loop that fills [typeImports]. *)
Lemma in_import_step (imports : list string) (op : ParsedOperation) (name : string) :
  List.In name
    (let s1 := ClientGen.setAdd (ClientGen.pascalCase (operationId op) ++ "Response")
                                imports in
     let s2 := match ClientGen.getParamsType op with
               | Some t => ClientGen.setAdd t s1
               | None => s1
               end in
     match ClientGen.getRequestType op with
     | Some t => ClientGen.setAdd t s2
     | None => s2
     end)
  <-> List.In name imports \/ List.In name (signatureTypes op).
Proof.
  unfold signatureTypes, ClientGen.getResponseType. cbn zeta.
  destruct (ClientGen.getRequestType op), (ClientGen.getParamsType op);
    cbn [List.In List.app]; rewrite ?in_setAdd; intuition.
Qed.

Lemma imports_from_signatures (ops : list ParsedOperation) (acc : list string)
      (name : string) :
  List.In name
    (List.fold_left
       (fun imports op =>
          let s1 := ClientGen.setAdd (ClientGen.pascalCase (operationId op) ++ "Response")
                                     imports in
          let s2 := match ClientGen.getParamsType op with
                    | Some t => ClientGen.setAdd t s1
                    | None => s1
                    end in
          match ClientGen.getRequestType op with
          | Some t => ClientGen.setAdd t s2
          | None => s2
          end)
       ops acc)
  <-> List.In name acc
      \/ exists op, List.In op ops /\ List.In name (signatureTypes op).
Proof.
  revert acc. induction ops as [|op r IH]; intros acc; cbn [List.fold_left].
  - split; [auto | intros [H|(op & [] & _)]; exact H].
  - rewrite IH, in_import_step. split.
    + intros [[H|H]|(op' & Hin & H)]; eauto.
      * right. exists op. split; [now left | exact H].
      * right. exists op'. split; [now right | exact H].
    + intros [H|(op' & [<-|Hin] & H)]; eauto.
Qed.

(** The imports of the client are the signature types of its operations. *)
Lemma typeImports_spec (api : ParsedApi) (name : string) :
  List.In name (ClientGen.typeImports api)
  <-> exists op, List.In op (api_operations api) /\ List.In name (signatureTypes op).
Proof.
  unfold ClientGen.typeImports. rewrite imports_from_signatures.
  split; [intros [[]|H]; exact H | auto].
Qed.

Lemma response_block_declares (op : ParsedOperation) :
  BlockDeclares (TypesGen.generateResponseType op) (ClientGen.getResponseType op).
Proof.
  unfold BlockDeclares, ClientGen.getResponseType, TypesGen.generateResponseType.
  exists "". change (TypesGen.pascalCase (operationId op))
    with (ClientGen.pascalCase (operationId op)).
  set (name := ClientGen.pascalCase (operationId op)).
  destruct (match TypesGen.successResponse op with
            | Some r => pr_schema r
            | None => None
            end) as [schema|].
  - destruct (truthy (ps_ref schema)).
    + eexists. split; [now left|]. left. reflexivity.
    + destruct (if String.eqb (ps_type schema) "array" then ps_items schema else None)
        as [it|]; [destruct (truthy (ps_ref it))|];
        (eexists; split; [now left|]; left; reflexivity).
  - exists "void;". split; [now left|]. left.
    cbn. now rewrite ?append_assoc.
Qed.

Lemma params_block_declares (op : ParsedOperation) (t : string) :
  ClientGen.getParamsType op = Some t ->
  exists block,
    TypesGen.generateParamsInterface op = Some block /\ BlockDeclares block t.
Proof.
  unfold ClientGen.getParamsType, TypesGen.generateParamsInterface.
  destruct (List.filter ClientGen.isQueryOrPath (parameters op)) as [|p ps];
    [discriminate|].
  intros [= <-]. eexists. split; [reflexivity|].
  exists "". eexists. split; [now left|]. right.
  change (TypesGen.pascalCase (operationId op))
    with (ClientGen.pascalCase (operationId op)).
  cbn [List.app]. rewrite join_cons by apply snoc_not_nil.
  cbn. now rewrite ?append_assoc.
Qed.

Lemma generateInterface_declares (name : string) (schema : ParsedSchema) :
  BlockDeclares (TypesGen.generateInterface name schema) name.
Proof.
  unfold TypesGen.generateInterface.
  set (d := "/** " ++ orElse (ps_description schema) "" ++ " */").
  destruct (TypesGen.nonEmpty (ps_enum schema)) as [vs|];
    [|destruct (TypesGen.nonEmpty (ps_properties schema)) as [entries|]];
    destruct (truthy (ps_description schema)); cbn [List.app].
  - exists (d ++ nl). eexists. split; [right; now exists d|]. left.
    rewrite join_cons by discriminate. cbn [join String.concat].
    now rewrite ?append_assoc.
  - exists "". eexists. split; [now left|]. left. cbn. now rewrite ?append_assoc.
  - exists (d ++ nl). eexists. split; [right; now exists d|]. right.
    rewrite join_cons by discriminate.
    rewrite join_cons by apply snoc_not_nil.
    now rewrite ?append_assoc.
  - exists "". eexists. split; [now left|]. right.
    rewrite join_cons by apply snoc_not_nil.
    cbn. now rewrite ?append_assoc.
  - exists (d ++ nl). eexists. split; [right; now exists d|]. left.
    rewrite join_cons by discriminate. cbn [join String.concat].
    now rewrite ?append_assoc.
  - exists "". eexists. split; [now left|]. left. cbn. now rewrite ?append_assoc.
Qed.

Lemma request_block_declares (op : ParsedOperation) (t : string) :
  ClientGen.getRequestType op = Some t ->
  exists block,
    TypesGen.generateRequestBodyInterface op = Some block /\ BlockDeclares block t.
Proof.
  unfold ClientGen.getRequestType, TypesGen.generateRequestBodyInterface.
  destruct (requestBody op) as [body|]; [|discriminate].
  intros [= <-].
  change (TypesGen.pascalCase (operationId op))
    with (ClientGen.pascalCase (operationId op)).
  destruct (truthy (ps_ref (rb_schema body))).
  - eexists. split; [reflexivity|].
    exists "". eexists. split; [now left|]. left. reflexivity.
  - eexists. split; [reflexivity|]. apply generateInterface_declares.
Qed.

(** Each signature type of an operation is declared by one of the blocks
    the Type Renderer emits for that operation. *)
Lemma signature_type_block (op : ParsedOperation) (name : string) :
  List.In name (signatureTypes op) ->
  exists block,
    List.In block (TypesGen.operationTypeLines op) /\ BlockDeclares block name.
Proof.
  unfold signatureTypes, TypesGen.operationTypeLines.
  intros [<-|H].
  - exists (TypesGen.generateResponseType op). split.
    + rewrite !in_app_iff. right. right. now left.
    + apply response_block_declares.
  - apply in_app_iff in H. destruct H as [H|H].
    + destruct (ClientGen.getParamsType op) as [t|] eqn:E; [|contradiction].
      destruct H as [<-|[]].
      destruct (params_block_declares op t E) as (block & -> & Hb).
      exists block. split; [now left | exact Hb].
    + destruct (ClientGen.getRequestType op) as [t|] eqn:E; [|contradiction].
      destruct H as [<-|[]].
      destruct (request_block_declares op t E) as (block & -> & Hb).
      exists block. split; [|exact Hb].
      rewrite !in_app_iff. right. left. now left.
Qed.

(** A declaring block, anywhere after the first line, declares in the text. *)
Lemma block_declares_in_text (l1 l2 : list string) (block name : string) :
  l1 <> [] ->
  BlockDeclares block name ->
  Declares (join nl (l1 +++ block :: l2)) name.
Proof.
  intros Hne (pre & post & Hpre & Hblock).
  destruct (join_middle nl block l1 l2 Hne) as (rest & ->).
  unfold Declares.
  destruct Hpre as [->|(before & ->)].
  - exists (join nl l1), (post ++ rest).
    destruct Hblock as [-> | ->]; [left|right]; cbn [append];
      now rewrite ?append_assoc.
  - exists (join nl l1 ++ nl ++ before), (post ++ rest).
    destruct Hblock as [-> | ->]; [left|right]; now rewrite ?append_assoc.
Qed.

Lemma regroup_around (A B C l1 l2 : list string) (x : string) :
  A +++ B +++ C +++ (l1 +++ x :: l2) = (A +++ B +++ C +++ l1) +++ x :: l2.
Proof. now rewrite <- !app_assoc. Qed.

(** C8: every type name the client imports, and every type name a method
    signature of the client mentions (its Response, Params and Request
    types), is declared by a line of the types artifact rendered from the
    same IR. *)
Theorem no_dangling_type_names (api : ParsedApi) (name : string) :
  List.In name (ClientGen.typeImports api)
  \/ (exists op, List.In op (api_operations api) /\ List.In name (signatureTypes op)) ->
  Declares (TypesGen.generateTypes api) name.
Proof.
  rewrite typeImports_spec. intros [H|H]; destruct H as (op & Hop & Hname).
  all: destruct (signature_type_block op name Hname) as (block & Hblock & Hdecl).
  all: assert (Hin : List.In block (List.flat_map TypesGen.operationTypeLines
                                                  (api_operations api)))
         by (apply in_flat_map; eauto).
  all: apply in_split in Hin; destruct Hin as (l1 & l2 & Hsplit).
  all: unfold TypesGen.generateTypes, TypesGen.generateTypesLines; rewrite Hsplit.
  all: rewrite regroup_around; apply block_declares_in_text; [|exact Hdecl].
  all: discriminate.
Qed.

(** C8, an instance: the response type of DELETE /pet/{petId}. *)
Lemma no_dangling_type_names_witness :
  Declares (TypesGen.generateTypes deletePetApi) "DeletePetResponse".
Proof.
  apply (@no_dangling_type_names deletePetApi "DeletePetResponse").
  left. vm_compute. left. reflexivity.
Defined.

End RendererProps.

(* ------------------------------------------------------------------ *)
(** ** The spec locator *)

Module FetcherProps.
Import JsString Chars Fetcher Instances JsStringFacts.

(** The message of the error, around the two values it quotes. *)
Lemma notFoundMessage_shape (url baseUrl : string) :
  exists head middle tail,
    notFoundMessage url baseUrl = head ++ url ++ middle ++ baseUrl ++ tail.
Proof.
  exists ("Could not find an OpenAPI specification." ++ nl ++ nl
          ++ "Tried:" ++ nl ++ "  1. Direct URL: ").
  exists (nl ++ "  2. Discovery at common paths under: ").
  eexists. reflexivity.
Qed.

Lemma notFoundMessage_includes (url baseUrl : string) :
  includes (notFoundMessage url baseUrl) url = true
  /\ includes (notFoundMessage url baseUrl) baseUrl = true.
Proof.
  destruct (notFoundMessage_shape url baseUrl) as (head & middle & tail & ->).
  split; [apply includes_append|].
  rewrite <- (append_assoc url), <- (append_assoc head).
  apply includes_append.
Qed.

Section World.

Variable Data : Type.
Variable Spec : Type.
Variable isObject : Data -> bool.
Variable openapiField : Data -> option string.
Variable swaggerField : Data -> option string.
Variable fetchAndParse : nat -> string -> string + Data.
Variable validate : Data -> string + Spec.
Variable parseURL : string -> option (string * string).

Abbreviation attemptFails :=
  (Fetcher.attemptFails Data Spec isObject openapiField swaggerField fetchAndParse validate).
Abbreviation discoverFrom :=
  (Fetcher.discoverFrom Data Spec isObject openapiField swaggerField fetchAndParse validate).
Abbreviation discoverSpec :=
  (Fetcher.discoverSpec Data Spec isObject openapiField swaggerField fetchAndParse validate).
Abbreviation directAttempt :=
  (Fetcher.directAttempt Data Spec isObject openapiField swaggerField fetchAndParse validate).
Abbreviation fetchOpenApiSpec :=
  (Fetcher.fetchOpenApiSpec Data Spec isObject openapiField swaggerField fetchAndParse validate
                            parseURL).
Abbreviation isSpec := (Fetcher.isOpenApiSpec Data isObject openapiField swaggerField).
Abbreviation getBaseUrl := (Fetcher.getBaseUrl parseURL).

(** When every probe fails, the loop tries every path, in order, and
    returns nothing. *)
Lemma discoverFrom_all_fail (baseUrl : string) (paths : list string) (n : nat) :
  (forall i path, List.nth_error paths i = Some path ->
                  attemptFails (n + i) (baseUrl ++ path)) ->
  snd (discoverFrom n baseUrl paths) = None
  /\ List.filter isTrying (fst (discoverFrom n baseUrl paths))
     = List.map (fun path => "  Trying: " ++ baseUrl ++ path) paths.
Proof.
  revert n. induction paths as [|path rest IH]; intros n Hfail; [split; reflexivity|].
  assert (Hhere : attemptFails n (baseUrl ++ path)).
  { specialize (Hfail 0 path eq_refl). now rewrite Nat.add_0_r in Hfail. }
  assert (Hrest : forall i p, List.nth_error rest i = Some p ->
                              attemptFails (S n + i) (baseUrl ++ p)).
  { intros i p Hp. specialize (Hfail (S i) p Hp).
    now rewrite Nat.add_succ_r in Hfail. }
  destruct (IH (S n) Hrest) as [IHnone IHlog].
  assert (Htrying : isTrying ("  Trying: " ++ baseUrl ++ path) = true)
    by apply prefix_refl_append.
  unfold Fetcher.attemptFails in Hhere. cbn [Fetcher.discoverFrom List.map].
  destruct (fetchAndParse n (baseUrl ++ path)) as [msg|data].
  - cbn [fst snd List.filter]. rewrite Htrying, IHlog. auto.
  - destruct (isSpec data).
    + destruct (validate data) as [msg|spec]; [|contradiction].
      cbn [fst snd List.filter]. rewrite Htrying.
      change (isTrying "  ✓ Found valid OpenAPI spec!") with false.
      rewrite IHlog. auto.
    + cbn [fst snd List.filter]. rewrite Htrying, IHlog. auto.
Qed.

Lemma discoverSpec_all_fail (baseUrl : string) (n : nat) :
  (forall i path, List.nth_error SPEC_DISCOVERY_PATHS i = Some path ->
                  attemptFails (n + i) (baseUrl ++ path)) ->
  snd (discoverSpec n baseUrl) = None
  /\ List.filter isTrying (fst (discoverSpec n baseUrl))
     = List.map (fun path => "  Trying: " ++ baseUrl ++ path) SPEC_DISCOVERY_PATHS.
Proof.
  intros Hfail. unfold Fetcher.discoverSpec.
  pose proof (discoverFrom_all_fail baseUrl SPEC_DISCOVERY_PATHS n Hfail) as H.
  revert H. generalize SPEC_DISCOVERY_PATHS. intros paths.
  generalize (discoverFrom n baseUrl paths). intros [log res].
  cbn [fst snd List.filter]. intros [-> ->].
  replace (isTrying (nl ++ "Attempting to discover OpenAPI spec at common locations..."))
    with false by reflexivity.
  auto.
Qed.

Lemma directAttempt_fails (url : string) :
  attemptFails 0 url ->
  snd (directAttempt url) = None
  /\ List.filter isTrying (fst (directAttempt url)) = [].
Proof.
  unfold Fetcher.attemptFails, Fetcher.directAttempt.
  destruct (fetchAndParse 0 url) as [msg|data]; [split; reflexivity|].
  destruct (isSpec data);
    [|split; reflexivity].
  destruct (validate data); [split; reflexivity | contradiction].
Qed.

(** C9, as the code has it: when the direct attempt and every probe fail,
    [fetchOpenApiSpec] throws an error whose message names the original URL
    and the origin computed from it; the probe paths are not part of the
    error: each attempted location is written to the console, in the order
    of the fixed list, and only there. *)
Theorem not_found_error_names_url_and_origin (url : string) :
  attemptFails 0 url ->
  (forall i path, List.nth_error SPEC_DISCOVERY_PATHS i = Some path ->
                  attemptFails (S i) (getBaseUrl url ++ path)) ->
  exists log message,
    fetchOpenApiSpec url = (log, inl message)
    /\ message = notFoundMessage url (getBaseUrl url)
    /\ includes message url = true
    /\ includes message (getBaseUrl url) = true
    /\ List.filter isTrying log
       = List.map (fun path => "  Trying: " ++ getBaseUrl url ++ path)
                  SPEC_DISCOVERY_PATHS.
Proof.
  intros Hdirect Hprobes.
  pose proof (directAttempt_fails url Hdirect) as Hd.
  pose proof (discoverSpec_all_fail (getBaseUrl url) 1 Hprobes) as Hs.
  pose proof (notFoundMessage_includes url (getBaseUrl url)) as [Hurl Hbase].
  unfold Fetcher.fetchOpenApiSpec.
  revert Hd Hs.
  generalize (directAttempt url). intros [dlog dres].
  generalize (discoverSpec 1 (getBaseUrl url)). intros [slog sres].
  cbn [fst snd]. intros [-> Hquiet] [-> Hlog].
  eexists. eexists. split; [reflexivity|]. split; [reflexivity|].
  split; [exact Hurl|]. split; [exact Hbase|].
  cbn [List.app List.filter].
  replace (isTrying ("Fetching: " ++ url)) with false by reflexivity.
  now rewrite filter_app, Hquiet, Hlog.
Qed.

End World.

(** C9, an instance: the host where every fetch answers 404. *)
Lemma not_found_error_names_url_and_origin_witness :
  exists log message,
    deadFetchOpenApiSpec exampleUrl = (log, inl message)
    /\ message = notFoundMessage exampleUrl "https://api.example.com"
    /\ includes message exampleUrl = true
    /\ includes message "https://api.example.com" = true
    /\ List.filter isTrying log
       = List.map (fun path => "  Trying: " ++ "https://api.example.com" ++ path)
                  SPEC_DISCOVERY_PATHS.
Proof.
  apply (@not_found_error_names_url_and_origin unit unit
           (fun _ => false) (fun _ => None) (fun _ => None)
           deadFetch rejectAll exampleParseURL exampleUrl).
  - exact I.
  - intros i path _. exact I.
Defined.

(** C9, refuted as stated: on that host the error thrown carries none of
    the fifteen probe paths that were attempted. *)
Lemma not_found_error_omits_probe_paths :
  exists log message,
    deadFetchOpenApiSpec exampleUrl = (log, inl message)
    /\ List.length (List.filter isTrying log) = 15
    /\ List.forallb (fun path => negb (includes message path)) SPEC_DISCOVERY_PATHS
       = true.
Proof. eexists. eexists. split; [reflexivity|]. split; vm_compute; reflexivity. Qed.

End FetcherProps.

(* ------------------------------------------------------------------ *)
(** ** The client renderer: grouping, imports, paths and names *)

Module MoreClientProps.
Import JsString Parser Chars Vocabulary Instances MoreVocabulary JsStringFacts.

(** *** The map of groups *)

Lemma lookup_mapSet_same {A : Type} (key : string) (v : A) (m : list (string * A)) :
  lookup key (ClientGen.mapSet key v m) = Some v.
Proof.
  induction m as [|[k x] r IH]; cbn.
  - now rewrite String.eqb_refl.
  - destruct (String.eqb k key) eqn:E; cbn; rewrite E; [reflexivity | exact IH].
Qed.

Lemma lookup_mapSet_other {A : Type} (key key' : string) (v : A) (m : list (string * A)) :
  key' <> key -> lookup key' (ClientGen.mapSet key v m) = lookup key' m.
Proof.
  intros Hne. induction m as [|[k x] r IH]; cbn.
  - destruct (String.eqb_spec key key'); [congruence | reflexivity].
  - destruct (String.eqb_spec k key) as [->|Hk]; cbn.
    + destruct (String.eqb_spec key key'); [congruence | reflexivity].
    + destruct (String.eqb k key'); [reflexivity | exact IH].
Qed.

Lemma in_keys_mapSet {A : Type} (key k : string) (v : A) (m : list (string * A)) :
  List.In k (List.map fst (ClientGen.mapSet key v m)) ->
  k = key \/ List.In k (List.map fst m).
Proof.
  induction m as [|[k0 x] r IH]; cbn.
  - intros [<-|[]]. now left.
  - destruct (String.eqb_spec k0 key) as [->|Hk]; cbn; [tauto|].
    intros [<-|H]; [tauto|]. destruct (IH H); tauto.
Qed.

Lemma NoDup_keys_mapSet {A : Type} (key : string) (v : A) (m : list (string * A)) :
  List.NoDup (List.map fst m) -> List.NoDup (List.map fst (ClientGen.mapSet key v m)).
Proof.
  induction m as [|[k x] r IH]; cbn; intros Hnd.
  - constructor; [tauto | constructor].
  - inversion Hnd as [|? ? Hnotin Hrest]; subst.
    destruct (String.eqb_spec k key) as [->|Hk]; cbn; [exact Hnd|].
    constructor; [|now apply IH].
    intros Hin. apply in_keys_mapSet in Hin. destruct Hin; [congruence | contradiction].
Qed.

Lemma in_iff_lookup {A : Type} (m : list (string * A)) (k : string) (v : A) :
  List.NoDup (List.map fst m) ->
  (List.In (k, v) m <-> lookup k m = Some v).
Proof.
  induction m as [|[k0 x] r IH]; cbn; intros Hnd.
  - split; [contradiction | discriminate].
  - inversion Hnd as [|? ? Hnotin Hrest]; subst.
    destruct (String.eqb_spec k0 k) as [->|Hk].
    + split.
      * intros [[= ->]|Hin]; [reflexivity|].
        elim Hnotin. apply in_map_iff. now exists (k, v).
      * intros [= ->]. now left.
    + rewrite <- (IH Hrest). split; [|tauto].
      intros [[= -> _]|Hin]; [congruence | exact Hin].
Qed.

Lemma groupByTag_fold (operations : list ParsedOperation) :
  ClientGen.groupByTag operations = List.fold_left groupStep operations [].
Proof. reflexivity. Qed.

Lemma groupStep_groupOf (tag : string) groups (op : ParsedOperation) :
  groupOf tag (groupStep groups op)
  = groupOf tag groups +++ (if hasTag tag op then [op] else []).
Proof.
  unfold groupOf, groupStep, hasTag.
  destruct (String.eqb_spec (ClientGen.firstTag op) tag) as [<-|Hne].
  - now rewrite lookup_mapSet_same.
  - rewrite lookup_mapSet_other by congruence. now rewrite app_nil_r.
Qed.

Lemma fold_groupOf (tag : string) (ops : list ParsedOperation) groups :
  groupOf tag (List.fold_left groupStep ops groups)
  = groupOf tag groups +++ List.filter (hasTag tag) ops.
Proof.
  revert groups. induction ops as [|op r IH]; intros groups; cbn [List.fold_left List.filter].
  - now rewrite app_nil_r.
  - rewrite IH, groupStep_groupOf, <- app_assoc.
    destruct (hasTag tag op); reflexivity.
Qed.

Lemma fold_noEmptyGroup (ops : list ParsedOperation) groups :
  noEmptyGroup groups -> noEmptyGroup (List.fold_left groupStep ops groups).
Proof.
  revert groups. induction ops as [|op r IH]; intros groups H; [exact H|].
  cbn [List.fold_left]. apply IH. intros tag. unfold groupStep.
  destruct (String.eqb_spec tag (ClientGen.firstTag op)) as [->|Hne].
  - rewrite lookup_mapSet_same. intros [= Habs]. now apply snoc_not_nil in Habs.
  - rewrite lookup_mapSet_other by exact Hne. apply H.
Qed.

Lemma fold_NoDup_keys (ops : list ParsedOperation) groups :
  List.NoDup (List.map fst groups) ->
  List.NoDup (List.map fst (List.fold_left groupStep ops groups)).
Proof.
  revert groups. induction ops as [|op r IH]; intros groups H; [exact H|].
  cbn [List.fold_left]. apply IH. now apply NoDup_keys_mapSet.
Qed.

Lemma groupByTag_NoDup (ops : list ParsedOperation) :
  List.NoDup (List.map fst (ClientGen.groupByTag ops)).
Proof. rewrite groupByTag_fold. apply fold_NoDup_keys. constructor. Qed.

(** The group of a tag holds the operations of that tag, in order. *)
Lemma groupByTag_lookup (ops : list ParsedOperation) (tag : string)
      (l : list ParsedOperation) :
  lookup tag (ClientGen.groupByTag ops) = Some l
  <-> l <> [] /\ l = List.filter (hasTag tag) ops.
Proof.
  rewrite groupByTag_fold.
  pose proof (fold_groupOf tag ops []) as Hg.
  pose proof (fold_noEmptyGroup ops [] (fun t H => ltac:(discriminate H)) tag) as Hne.
  unfold groupOf in Hg. cbn [lookup List.app] in Hg.
  destruct (lookup tag (List.fold_left groupStep ops [])) as [l0|].
  - split.
    + intros [= <-]. split; [congruence | exact Hg].
    + intros [_ ->]. now rewrite Hg.
  - split; [discriminate|]. intros [Hl ->]. now elim Hl.
Qed.

(** X6: [groupByTag] partitions the operations by first tag: its keys are
    pairwise distinct, and the group stored under a tag is exactly the
    non-empty list of the operations whose first tag it is, in their
    original order. *)
Theorem groups_partition_by_first_tag (ops : list ParsedOperation) :
  List.NoDup (List.map fst (ClientGen.groupByTag ops))
  /\ forall tag l,
       List.In (tag, l) (ClientGen.groupByTag ops)
       <-> l <> [] /\ l = List.filter (hasTag tag) ops.
Proof.
  split; [apply groupByTag_NoDup|].
  intros tag l. rewrite (in_iff_lookup _ tag l (groupByTag_NoDup ops)).
  apply groupByTag_lookup.
Qed.

(** X7: every operation is rendered in exactly one group, that of its first
    tag, which is "default" when the operation has no tag or an empty first
    tag. *)
Theorem operation_in_one_group (ops : list ParsedOperation) (op : ParsedOperation) :
  List.In op ops ->
  (exists l, List.In (ClientGen.firstTag op, l) (ClientGen.groupByTag ops)
             /\ List.In op l)
  /\ (forall tag l, List.In (tag, l) (ClientGen.groupByTag ops) -> List.In op l ->
                    tag = ClientGen.firstTag op)
  /\ (tags op = [] \/ List.hd_error (tags op) = Some "" ->
      ClientGen.firstTag op = "default").
Proof.
  intros Hin. split; [|split].
  - exists (List.filter (hasTag (ClientGen.firstTag op)) ops).
    assert (Hmem : List.In op (List.filter (hasTag (ClientGen.firstTag op)) ops)).
    { apply filter_In. split; [exact Hin|]. unfold hasTag. apply String.eqb_refl. }
    split; [|exact Hmem].
    apply (in_iff_lookup _ _ _ (groupByTag_NoDup ops)), groupByTag_lookup.
    split; [|reflexivity]. intros Habs. now rewrite Habs in Hmem.
  - intros tag l Hg Hop.
    apply (in_iff_lookup _ _ _ (groupByTag_NoDup ops)), groupByTag_lookup in Hg.
    destruct Hg as [_ ->]. apply filter_In in Hop. destruct Hop as [_ Htag].
    unfold hasTag in Htag. apply String.eqb_eq in Htag. now symmetry.
  - unfold ClientGen.firstTag. intros [->| ->]; reflexivity.
Qed.

(** X7, an instance: DELETE /pet/{petId}, tagged [pet]. *)
Lemma operation_in_one_group_witness :
  (exists l, List.In (ClientGen.firstTag deletePet, l) (ClientGen.groupByTag [deletePet])
             /\ List.In deletePet l)
  /\ (forall tag l, List.In (tag, l) (ClientGen.groupByTag [deletePet]) ->
                    List.In deletePet l -> tag = ClientGen.firstTag deletePet)
  /\ (tags deletePet = [] \/ List.hd_error (tags deletePet) = Some "" ->
      ClientGen.firstTag deletePet = "default").
Proof.
  apply (@operation_in_one_group [deletePet] deletePet). now left.
Defined.

(** *** The set of imports *)

Lemma NoDup_setAdd (x : string) (s : list string) :
  List.NoDup s -> List.NoDup (ClientGen.setAdd x s).
Proof.
  intros Hnd. unfold ClientGen.setAdd.
  destruct (List.existsb (String.eqb x) s) eqn:E; [exact Hnd|].
  apply NoDup_app; [exact Hnd | constructor; [tauto | constructor] |].
  intros y Hy [Heq|[]]. subst y.
  assert (Hex : List.existsb (String.eqb x) s = true).
  { apply existsb_exists. exists x. split; [exact Hy | apply String.eqb_refl]. }
  congruence.
Qed.

(** X8: the import list of the generated client never names a type twice,
    whatever the operation identifiers are. *)
Theorem imports_have_no_duplicate (api : ParsedApi) :
  List.NoDup (ClientGen.typeImports api).
Proof.
  unfold ClientGen.typeImports.
  assert (Hgen : forall ops acc, List.NoDup acc ->
            List.NoDup
              (List.fold_left
                 (fun imports op =>
                    let s1 := ClientGen.setAdd
                                (ClientGen.pascalCase (operationId op) ++ "Response")
                                imports in
                    let s2 := match ClientGen.getParamsType op with
                              | Some t => ClientGen.setAdd t s1
                              | None => s1
                              end in
                    match ClientGen.getRequestType op with
                    | Some t => ClientGen.setAdd t s2
                    | None => s2
                    end)
                 ops acc)).
  { induction ops as [|op r IH]; intros acc Hacc; [exact Hacc|].
    cbn [List.fold_left]. apply IH. cbn zeta.
    destruct (ClientGen.getRequestType op), (ClientGen.getParamsType op);
      repeat apply NoDup_setAdd; exact Hacc. }
  apply Hgen. constructor.
Qed.

(** *** Path interpolation *)

Lemma replaceAt_eq (before pat rep s : string) :
  replaceAt before pat rep s
  = if String.prefix pat s
    then getSubstitution pat before (dropChars (String.length pat) s) rep
         ++ dropChars (String.length pat) s
    else match s with
         | EmptyString => EmptyString
         | String c r => String c (replaceAt (before ++ String c EmptyString) pat rep r)
         end.
Proof. destruct s; reflexivity. Qed.

Lemma replaceAt_absent (before pat rep s : string) :
  includes s pat = false -> replaceAt before pat rep s = s.
Proof.
  revert before.
  induction s as [|c r IH]; cbn [includes]; intros before H;
    apply orb_false_iff in H; destruct H as [Hp Hr];
    rewrite replaceAt_eq, Hp; [reflexivity|].
  now rewrite IH.
Qed.

(** A pattern that does not occur leaves the string as it is, whatever the
    replacement. *)
Lemma replaceFirst_absent (pat rep s : string) :
  includes s pat = false -> replaceFirst pat rep s = s.
Proof. apply replaceAt_absent. Qed.

Lemma replaceAt_here (before pat rep rest : string) :
  replaceAt before pat rep (pat ++ rest) = getSubstitution pat before rest rep ++ rest.
Proof.
  rewrite replaceAt_eq, prefix_refl_append.
  rewrite <- (Nat.add_0_r (String.length pat)), dropChars_append. reflexivity.
Qed.

(** A replacement text read up to a part without dollar is that part,
    followed by the reading of the rest. *)
Lemma getSubstitution_plain (matched before after plain rest : string) :
  lacks "$" plain = true ->
  getSubstitution matched before after (plain ++ rest)
  = plain ++ getSubstitution matched before after rest.
Proof.
  induction plain as [|c r IH]; intros Hlacks; [reflexivity|].
  cbn [lacks allChars] in Hlacks. apply andb_true_iff in Hlacks.
  destruct Hlacks as [Hc Hr]. apply negb_true_iff in Hc.
  cbn [append getSubstitution]. rewrite Hc. f_equal. apply IH. exact Hr.
Qed.

(** The template expression of a parameter whose name has no dollar holds
    no replacement pattern: its dollar is followed by a brace. *)
Lemma getSubstitution_template (matched before after name : string) :
  lacks "$" name = true ->
  getSubstitution matched before after ("${params." ++ name ++ "}")
  = "${params." ++ name ++ "}".
Proof.
  intros Hlacks.
  change ("${params." ++ name ++ "}") with ("$" ++ "{params." ++ name ++ "}").
  change (getSubstitution matched before after ("$" ++ "{params." ++ name ++ "}"))
    with (String "$" (getSubstitution matched before after
                        ("{params." ++ name ++ "}"))).
  cbn [append]. f_equal.
  change (String "{" (String "p" (String "a" (String "r" (String "a" (String "m"
            (String "s" (String "." (name ++ "}")))))))))
    with ("{params." ++ name ++ "}").
  rewrite (getSubstitution_plain matched before after "{params." (name ++ "}"))
    by reflexivity.
  rewrite (getSubstitution_plain matched before after name "}" Hlacks).
  reflexivity.
Qed.

(** The first occurrence of a placeholder is the one that follows a prefix
    without opening brace. *)
Lemma replaceAt_placeholder (passed before name rep after : string) :
  lacks "{" before = true ->
  replaceAt passed ("{" ++ name ++ "}") rep (before ++ ("{" ++ name ++ "}") ++ after)
  = before ++ getSubstitution ("{" ++ name ++ "}") (passed ++ before) after rep
    ++ after.
Proof.
  revert passed. induction before as [|c r IH]; intros passed Hlacks.
  - rewrite append_nil_r. exact (replaceAt_here passed ("{" ++ name ++ "}") rep after).
  - cbn [lacks allChars] in Hlacks. apply andb_true_iff in Hlacks.
    destruct Hlacks as [Hc Hr].
    change ((String c r) ++ ("{" ++ name ++ "}") ++ after)
      with (String c (r ++ ("{" ++ name ++ "}") ++ after)).
    rewrite replaceAt_eq.
    replace (String.prefix ("{" ++ name ++ "}")
               (String c (r ++ ("{" ++ name ++ "}") ++ after))) with false.
    + rewrite (IH (passed ++ String c EmptyString) Hr).
      rewrite (append_assoc passed (String c EmptyString) r). reflexivity.
    + cbn [append String.prefix].
      destruct (Ascii.ascii_dec "{" c) as [<-|_]; [discriminate Hc | reflexivity].
Qed.

(** X9: the placeholder of a path parameter whose name has no dollar sign,
    when nothing before it in the path contains an opening brace, is
    replaced by the template expression that reads the parameter from
    [params]; the rest of the path is kept.  (A dollar sign in the name may
    form, in the replacement text, a pattern that [replace] expands.) *)
Theorem placeholder_is_interpolated (before after : string) (p : ParsedParameter) :
  lacks "{" before = true ->
  lacks "$" (pp_name p) = true ->
  ClientGen.generatePathInterpolation
    (before ++ ("{" ++ pp_name p ++ "}") ++ after) [p]
  = before ++ ("${params." ++ pp_name p ++ "}") ++ after.
Proof.
  intros Hlacks Hname. unfold ClientGen.generatePathInterpolation.
  cbn [List.fold_left]. unfold replaceFirst.
  rewrite (replaceAt_placeholder "" before (pp_name p)
             ("${params." ++ pp_name p ++ "}") after Hlacks).
  now rewrite getSubstitution_template.
Qed.

(** X9, an instance: /pet/{petId}/uploadImage. *)
Lemma placeholder_is_interpolated_witness :
  ClientGen.generatePathInterpolation "/pet/{petId}/uploadImage"
    [mkParsedParameter "petId" "path" true None "integer" None]
  = "/pet/${params.petId}/uploadImage".
Proof.
  apply (@placeholder_is_interpolated "/pet/" "/uploadImage"
           (mkParsedParameter "petId" "path" true None "integer" None)).
  - reflexivity.
  - reflexivity.
Defined.

(** X10: path parameters whose placeholder does not occur in the path
    leave it unchanged: nothing is appended or reported for them. *)
Theorem absent_placeholders_change_nothing (path : string)
        (pathParams : list ParsedParameter) :
  (forall p, List.In p pathParams ->
             includes path ("{" ++ pp_name p ++ "}") = false) ->
  ClientGen.generatePathInterpolation path pathParams = path.
Proof.
  unfold ClientGen.generatePathInterpolation.
  induction pathParams as [|p r IH]; intros H; [reflexivity|].
  cbn [List.fold_left]. rewrite replaceFirst_absent by (apply H; now left).
  apply IH. intros q Hq. apply H. now right.
Qed.

(** X10, an instance: /pets with a path parameter [petId]. *)
Lemma absent_placeholders_change_nothing_witness :
  ClientGen.generatePathInterpolation "/pets"
    [mkParsedParameter "petId" "path" true None "integer" None]
  = "/pets".
Proof.
  apply (@absent_placeholders_change_nothing "/pets"
           [mkParsedParameter "petId" "path" true None "integer" None]).
  intros p [<-|[]]. reflexivity.
Defined.

(** *** Names *)

Lemma alnum_not_separator (c : ascii) :
  isAlnum c = true ->
  (Ascii.eqb c "-" || Ascii.eqb c "_")%char = false /\ isWordChar c = true.
Proof. destruct c as [[] [] [] [] [] [] [] []]; vm_compute; intuition congruence. Qed.

Lemma replaceSeparators_plain (c : ascii) (tl : string) :
  isAlnum c = true ->
  ClientGen.replaceSeparators (String c tl) = String c (ClientGen.replaceSeparators tl).
Proof.
  intros Hc. destruct (alnum_not_separator c Hc) as [Hsep _].
  destruct tl as [|c2 r]; [reflexivity|].
  cbn [ClientGen.replaceSeparators]. now rewrite Hsep.
Qed.

Lemma replaceSeparators_word (w s : string) :
  allChars isAlnum w = true ->
  ClientGen.replaceSeparators (w ++ s) = w ++ ClientGen.replaceSeparators s.
Proof.
  induction w as [|c r IH]; intros H; [reflexivity|].
  cbn [allChars] in H. apply andb_true_iff in H. destruct H as [Hc Hr].
  cbn [append]. rewrite replaceSeparators_plain by exact Hc. now rewrite IH.
Qed.

Lemma replaceSeparators_join (sep : ascii) (w : string) (ws : list string) :
  sep = "-"%char \/ sep = "_"%char ->
  isWord w = true ->
  List.Forall (fun x => isWord x = true) ws ->
  ClientGen.replaceSeparators (join (String sep "") (w :: ws))
  = w ++ join "" (List.map upperFirst ws).
Proof.
  intros Hsep. revert w. induction ws as [|w2 ws IH]; intros w Hw Hws.
  - unfold isWord in Hw. apply andb_true_iff in Hw. destruct Hw as [_ Hw].
    cbn. rewrite <- (append_nil_r w) at 1.
    rewrite replaceSeparators_word by exact Hw. reflexivity.
  - inversion Hws as [|? ? Hw2 Hrest]; subst.
    specialize (IH w2 Hw2 Hrest).
    unfold isWord in Hw. apply andb_true_iff in Hw. destruct Hw as [_ Hw].
    rewrite join_cons by discriminate.
    rewrite replaceSeparators_word by exact Hw. f_equal.
    assert (Hw2' := Hw2). unfold isWord in Hw2'. apply andb_true_iff in Hw2'.
    destruct Hw2' as [Hne Hall].
    destruct w2 as [|c r]; [discriminate Hne|].
    cbn [allChars] in Hall. apply andb_true_iff in Hall. destruct Hall as [Hc _].
    destruct (alnum_not_separator c Hc) as [_ Hword].
    assert (Hshape : exists X, join (String sep "") (String c r :: ws) = String c X).
    { destruct ws; cbn; eauto. }
    destruct Hshape as [X HX]. rewrite HX in IH |- *.
    rewrite replaceSeparators_plain in IH by exact Hc.
    injection IH as IH.
    cbn [append ClientGen.replaceSeparators].
    replace ((Ascii.eqb sep "-" || Ascii.eqb sep "_")%char && isWordChar c) with true
      by (destruct Hsep as [-> | ->]; now rewrite Hword).
    rewrite IH.
    change (List.map upperFirst (String c r :: ws))
      with (String (toUpperChar c) r :: List.map upperFirst ws).
    destruct (List.map upperFirst ws) as [|u us] eqn:E; cbn.
    + now rewrite append_nil_r.
    + reflexivity.
Qed.

(** X11: on words of letters and digits joined by '-' or by '_',
    [pascalCase] drops the separators and gives every word a capital
    initial, and [camelCase] is the same with the first letter lowered. *)
Theorem pascalCase_joins_words (sep : ascii) (w : string) (ws : list string) :
  sep = "-"%char \/ sep = "_"%char ->
  isWord w = true ->
  List.Forall (fun x => isWord x = true) ws ->
  ClientGen.pascalCase (join (String sep "") (w :: ws))
  = join "" (List.map upperFirst (w :: ws))
  /\ ClientGen.camelCase (join (String sep "") (w :: ws))
     = lowerFirst (join "" (List.map upperFirst (w :: ws))).
Proof.
  intros Hsep Hw Hws.
  assert (Hp : ClientGen.pascalCase (join (String sep "") (w :: ws))
               = join "" (List.map upperFirst (w :: ws))).
  { unfold ClientGen.pascalCase. rewrite (replaceSeparators_join sep w ws Hsep Hw Hws).
    unfold isWord in Hw. apply andb_true_iff in Hw. destruct Hw as [Hne Hall].
    destruct w as [|c r]; [discriminate Hne|].
    cbn [allChars] in Hall. apply andb_true_iff in Hall. destruct Hall as [Hc _].
    destruct (alnum_not_separator c Hc) as [_ Hword].
    cbn [append ClientGen.upperLeadingWord List.map upperFirst]. rewrite Hword.
    destruct (List.map upperFirst ws); cbn; [now rewrite append_nil_r | reflexivity]. }
  split; [exact Hp|]. unfold ClientGen.camelCase. now rewrite Hp.
Qed.

(** X11, an instance: find-pets-by-status. *)
Lemma pascalCase_joins_words_witness :
  ClientGen.pascalCase "find-pets-by-status" = "FindPetsByStatus"
  /\ ClientGen.camelCase "find-pets-by-status" = "findPetsByStatus".
Proof.
  apply (@pascalCase_joins_words "-"%char "find" ["pets"; "by"; "status"]).
  - now left.
  - reflexivity.
  - repeat constructor.
Defined.

Lemma not_lower_after_upper (c : ascii) :
  isLower (if isWordChar c then toUpperChar c else c) = false.
Proof. destruct c as [[] [] [] [] [] [] [] []]; reflexivity. Qed.

Lemma not_upper_after_lower (c : ascii) : isUpper (toLowerChar c) = false.
Proof. destruct c as [[] [] [] [] [] [] [] []]; reflexivity. Qed.

(** X12: whatever the identifier, the name [pascalCase] gives never starts
    with a lower-case letter and the name [camelCase] gives never starts
    with an upper-case letter. *)
Theorem case_of_first_letter (str : string) :
  firstChar (fun c => negb (isLower c)) (ClientGen.pascalCase str) = true
  /\ firstChar (fun c => negb (isUpper c)) (ClientGen.camelCase str) = true.
Proof.
  unfold ClientGen.camelCase, ClientGen.pascalCase.
  destruct (ClientGen.replaceSeparators str) as [|c r]; [split; reflexivity|].
  cbn [ClientGen.upperLeadingWord]. split.
  - pose proof (not_lower_after_upper c) as H.
    destruct (isWordChar c); cbn [firstChar]; now rewrite H.
  - destruct (isWordChar c); cbn [lowerFirst firstChar];
      now rewrite not_upper_after_lower.
Qed.

End MoreClientProps.

(* ------------------------------------------------------------------ *)
(** ** The normalizer: references, identifiers, content types *)

Module MoreParserProps.
Import JsString Parser Chars Vocabulary Instances MoreVocabulary JsStringFacts.

(** *** Splitting *)

Lemma split_nonempty (c : ascii) (s : string) : split c s <> [].
Proof.
  induction s as [|x r IH]; cbn; [discriminate|].
  destruct (Ascii.eqb x c); [discriminate|].
  destruct (split c r); [contradiction | discriminate].
Qed.

Lemma split_app (c : ascii) (a b : string) :
  split c (a ++ String c b) = split c a +++ split c b.
Proof.
  induction a as [|x r IH]; cbn [append split].
  - now rewrite Ascii.eqb_refl.
  - rewrite IH. destruct (Ascii.eqb x c); [reflexivity|].
    pose proof (split_nonempty c r) as Hne.
    destruct (split c r) as [|h t]; [contradiction | reflexivity].
Qed.

Lemma split_lacks (c : ascii) (s : string) : lacks c s = true -> split c s = [s].
Proof.
  induction s as [|x r IH]; cbn [lacks allChars split]; [reflexivity|].
  intros H. apply andb_true_iff in H. destruct H as [Hx Hr].
  apply negb_true_iff in Hx. rewrite Hx. now rewrite (IH Hr).
Qed.

Lemma allChars_app (p : ascii -> bool) (a b : string) :
  allChars p (a ++ b) = allChars p a && allChars p b.
Proof.
  induction a as [|x r IH]; cbn [append allChars]; [reflexivity|].
  now rewrite IH, andb_assoc.
Qed.

Lemma getRefName_segment (pointer name : string) :
  lacks "/" name = true -> getRefName (pointer ++ "/" ++ name) = name.
Proof.
  intros H. unfold getRefName.
  change (pointer ++ "/" ++ name) with (pointer ++ String "/" name).
  rewrite split_app, (split_lacks _ _ H). apply last_last.
Qed.

(** X13: the name [getRefName] gives a [$ref] pointer is what follows its
    last slash. *)
Theorem reference_name_is_last_segment (pointer name : string) :
  lacks "/" name = true ->
  getRefName (pointer ++ "/" ++ name) = name
  /\ ps_type (parseSchema (Some (Reference (pointer ++ "/" ++ name)))) = name
  /\ ps_ref (parseSchema (Some (Reference (pointer ++ "/" ++ name))))
     = Some (pointer ++ "/" ++ name).
Proof.
  intros H. cbn [parseSchema parseSchemaNode ps_type ps_ref].
  rewrite (getRefName_segment pointer name H). auto.
Qed.

(** X13, an instance: #/components/schemas/Pet. *)
Lemma reference_name_is_last_segment_witness :
  getRefName "#/components/schemas/Pet" = "Pet"
  /\ ps_type (parseSchema (Some (Reference "#/components/schemas/Pet"))) = "Pet"
  /\ ps_ref (parseSchema (Some (Reference "#/components/schemas/Pet")))
     = Some "#/components/schemas/Pet".
Proof.
  apply (@reference_name_is_last_segment "#/components/schemas" "Pet"). reflexivity.
Defined.

(** X15: a [$ref] whose pointer ends in a non-empty name renders, after
    normalization, as the bare name, and an array of such references as the
    name followed by [[]]: the Type Renderer redefines nothing. *)
Theorem reference_renders_as_its_name (pointer name : string) (indent : nat)
        (desc : option string) :
  lacks "/" name = true ->
  TypesGen.schemaToTsType
    (parseSchema (Some (Reference (pointer ++ "/" ++ name)))) indent = name
  /\ TypesGen.schemaToTsType
       (parseSchema
          (Some (Schema (Some "array") desc None None None
                        (Some (Reference (pointer ++ "/" ++ name)))
                        None None None None None)))
       indent
     = name ++ "[]".
Proof.
  intros H.
  assert (Htruthy : truthy (Some (pointer ++ "/" ++ name)) = true).
  { cbn [truthy]. destruct pointer; reflexivity. }
  assert (Href : TypesGen.schemaToTsType
                   (parseSchemaNode (Reference (pointer ++ "/" ++ name))) indent = name).
  { cbn [parseSchemaNode TypesGen.schemaToTsType]. rewrite Htruthy.
    apply getRefName_segment, H. }
  split; [exact Href|].
  cbn [parseSchema]. rewrite ParserProps.parseSchemaNode_schema.
  cbn [selectedBranch firstBranch]. unfold inlineResult.
  change (parseSchemaNode
            (Schema (Some "array") desc None None None
                    (Some (Reference (pointer ++ "/" ++ name)))
                    None None None None None))
    with (mkParsedSchema "array" None desc None
            (Some (parseSchemaNode (Reference (pointer ++ "/" ++ name))))
            None None None None).
  cbn [TypesGen.schemaToTsType truthy TypesGen.nonEmpty String.eqb].
  fold (TypesGen.schemaToTsType
          (parseSchemaNode (Reference (pointer ++ "/" ++ name))) indent).
  now rewrite Href.
Qed.

(** X15, an instance: an array of #/components/schemas/Pet. *)
Lemma reference_renders_as_its_name_witness :
  TypesGen.schemaToTsType
    (parseSchema (Some (Reference "#/components/schemas/Pet"))) 0 = "Pet"
  /\ TypesGen.schemaToTsType
       (parseSchema
          (Some (Schema (Some "array") None None None None
                        (Some (Reference "#/components/schemas/Pet"))
                        None None None None None)))
       0
     = "Pet[]".
Proof.
  apply (@reference_renders_as_its_name "#/components/schemas" "Pet" 0 None).
  reflexivity.
Defined.

(** *** Synthesized identifiers *)

Lemma nonParameterSegments_app (path rest : string) :
  nonParameterSegments (path ++ String "/" rest)
  = nonParameterSegments path +++ nonParameterSegments rest.
Proof. unfold nonParameterSegments. now rewrite split_app, filter_app. Qed.

(** X14: a trailing slash, or a trailing [{parameter}] segment, adds
    nothing to the synthesized operation id: /pet, /pet/ and /pet/{petId}
    all get the id of /pet. *)
Theorem trailing_segments_are_ignored (method path name : string) :
  lacks "/" name = true ->
  generateOperationId method (path ++ "/") = generateOperationId method path
  /\ generateOperationId method (path ++ "/{" ++ name ++ "}")
     = generateOperationId method path.
Proof.
  intros H. unfold generateOperationId. split.
  - change (path ++ "/") with (path ++ String "/" "").
    rewrite nonParameterSegments_app. cbn. now rewrite app_nil_r.
  - change (path ++ "/{" ++ name ++ "}") with (path ++ String "/" ("{" ++ name ++ "}")).
    rewrite nonParameterSegments_app.
    replace (nonParameterSegments ("{" ++ name ++ "}")) with (@nil string);
      [now rewrite app_nil_r|].
    unfold nonParameterSegments. rewrite split_lacks.
    + cbn [append List.filter String.eqb negb andb startsWith String.prefix].
      destruct (Ascii.ascii_dec "{" "{") as [_|ne]; [|now elim ne].
      destruct (name ++ "}"); reflexivity.
    + unfold lacks in *. cbn [append allChars].
      rewrite allChars_app, H. reflexivity.
Qed.

(** X14, an instance: /pet/{petId}. *)
Lemma trailing_segments_are_ignored_witness :
  generateOperationId "get" ("/pet" ++ "/") = generateOperationId "get" "/pet"
  /\ generateOperationId "get" ("/pet" ++ "/{" ++ "petId" ++ "}")
     = generateOperationId "get" "/pet".
Proof.
  apply (@trailing_segments_are_ignored "get" "/pet" "petId"). reflexivity.
Defined.

(** *** Every schema normalize produces *)

(** What holds of the schema of a reference and of the result of an inline
    node holds of every schema nested in the normalization of any node. *)
Lemma every_schema_within (Q : ParsedSchema -> Prop) :
  (forall ref, Q (parseSchemaNode (Reference ref))) ->
  (forall ty desc nullable fmt enum items props required,
      Q (inlineResult ty desc nullable fmt enum items props required)) ->
  forall s r, Within r (parseSchemaNode s) -> Q r.
Proof.
  intros Href Hinline s.
  induction s using SchemaNode_nested_ind; intros r HW.
  - apply ParserProps.Within_inv in HW.
    destruct HW as [->|[(it & H & _)|(ps & k & v & H & _)]];
      [apply Href | discriminate H | discriminate H].
  - rename H into IHitems, H0 into IHprops, H1 into IHall, H2 into IHone, H3 into IHany.
    rewrite ParserProps.parseSchemaNode_schema in HW.
    destruct (selectedBranch allOf oneOf anyOf) as [b|] eqn:Hsel.
    + revert r HW.
      exact (ParserProps.selectedBranch_covered _ allOf oneOf anyOf b Hsel
               IHall IHone IHany).
    + apply ParserProps.Within_inv in HW.
      destruct HW as [->|[(it & Hit & HW)|(ps & k & v & Hps & Hin & HW)]].
      * apply Hinline.
      * apply ParserProps.inlineResult_items in Hit. destruct Hit as (node & -> & ->).
        exact (IHitems r HW).
      * destruct (ParserProps.inlineResult_properties _ _ _ _ _ _ _ _ _ _ _ Hps Hin)
          as (entries & node & -> & Hnode & ->).
        cbn [onProperties] in IHprops. rewrite Forall_forall in IHprops.
        exact (IHprops (k, node) Hnode r HW).
Qed.

(** X16: every schema normalize produces, nested ones included, has a
    non-empty type unless it is a reference, never has an empty format,
    keeps a required list only together with properties, and, when it is a
    reference, has the reference name as its type. *)
Theorem produced_schema_is_well_formed (schema : option SchemaNode) (r : ParsedSchema) :
  Within r (parseSchema schema) ->
  (ps_ref r = None -> ps_type r <> "")
  /\ ps_format r <> Some ""
  /\ (ps_required r <> None -> ps_properties r <> None)
  /\ (forall ref, ps_ref r = Some ref -> ps_type r = getRefName ref).
Proof.
  destruct schema as [s|]; cbn [parseSchema].
  - revert s r. apply every_schema_within.
    + intros ref.
      cbn [parseSchemaNode ps_ref ps_type ps_format ps_required ps_properties].
      split; [discriminate|]. split; [discriminate|]. split; [auto|].
      intros ref0 [= <-]. reflexivity.
    + intros ty desc nullable fmt enum items props required.
      unfold inlineResult.
      cbn [parseSchemaNode ps_ref ps_type ps_format ps_required ps_properties].
      repeat split.
      * intros _. destruct (isSome enum); [discriminate|].
        destruct ty as [t|]; cbn; [|discriminate].
        destruct (String.eqb_spec t ""); [discriminate | assumption].
      * destruct fmt as [f|]; cbn; [|discriminate].
        destruct (String.eqb_spec f ""); cbn; [discriminate | congruence].
      * destruct (isStr ty "object" || isSome props); [discriminate | congruence].
      * discriminate.
  - intros HW. apply ParserProps.Within_inv in HW.
    destruct HW as [->|[(it & H & _)|(ps & k & v & H & _)]];
      [|discriminate H | discriminate H].
    cbn [ps_ref ps_type ps_format ps_required ps_properties].
    split; [discriminate|]. split; [discriminate|]. split; [auto | discriminate].
Qed.

(** X16, an instance: the object schema that also carries an enum. *)
Lemma produced_schema_is_well_formed_witness :
  (ps_ref (parseSchema (Some enumObject)) = None ->
   ps_type (parseSchema (Some enumObject)) <> "")
  /\ ps_format (parseSchema (Some enumObject)) <> Some ""
  /\ (ps_required (parseSchema (Some enumObject)) <> None ->
      ps_properties (parseSchema (Some enumObject)) <> None)
  /\ (forall ref, ps_ref (parseSchema (Some enumObject)) = Some ref ->
                  ps_type (parseSchema (Some enumObject)) = getRefName ref).
Proof.
  apply (@produced_schema_is_well_formed (Some enumObject)). apply within_self.
Defined.

(** *** Content types *)

Lemma lookup_in_keys {A : Type} (k : string) (m : list (string * A)) :
  List.In k (List.map fst m) -> exists v, lookup k m = Some v /\ List.In (k, v) m.
Proof.
  induction m as [|[k0 x] r IH]; cbn; [contradiction|].
  destruct (String.eqb_spec k0 k) as [->|Hne].
  - intros _. exists x. auto.
  - intros [H|H]; [congruence|]. destruct (IH H) as (v & Hv & Hin). exists v. auto.
Qed.

(** The content type picked: a key of the map, the first that contains
    "json" when there is one, the first key otherwise. *)
Lemma pickContentType_spec (content : list (string * MediaTypeObject)) (ct : string) :
  pickContentType content = Some ct ->
  List.In ct (List.map fst content)
  /\ ((exists k, List.In k (List.map fst content) /\ includes k "json" = true) ->
      includes ct "json" = true)
  /\ ((forall k, List.In k (List.map fst content) -> includes k "json" = false) ->
      List.hd_error (List.map fst content) = Some ct).
Proof.
  unfold pickContentType.
  destruct (List.find (fun c => includes c "json") (List.map fst content)) as [k|] eqn:E.
  - intros [= <-]. apply find_some in E. destruct E as [Hin Hjson].
    split; [exact Hin|]. split; [auto|].
    intros Hnone. rewrite (Hnone k Hin) in Hjson. discriminate.
  - intros Hhd. split; [|split].
    + destruct (List.map fst content); [discriminate Hhd|].
      injection Hhd as <-. now left.
    + intros (k & Hin & Hjson). rewrite (find_none _ _ E k Hin) in Hjson. discriminate.
    + auto.
Qed.

Lemma pickContentType_json (content : list (string * MediaTypeObject)) (k : string) :
  List.In k (List.map fst content) -> includes k "json" = true ->
  exists ct, pickContentType content = Some ct /\ includes ct "json" = true.
Proof.
  intros Hin Hjson. unfold pickContentType.
  destruct (List.find (fun c => includes c "json") (List.map fst content)) as [ct|] eqn:E.
  - exists ct. split; [reflexivity|]. now apply find_some in E.
  - rewrite (find_none _ _ E k Hin) in Hjson. discriminate.
Qed.

Lemma includes_json_nonempty (ct : string) : includes ct "json" = true -> ct <> "".
Proof. intros H ->. discriminate H. Qed.

(** X17: a request body that normalize keeps has as content type a
    non-empty key of the source content map, one that contains "json"
    whenever the map has such a key, and as schema the normalization of the
    schema of that media type; its required flag is the source flag, false
    when omitted. *)
Theorem kept_body_content_type (body : RequestBodyObject) (rb : ParsedRequestBody) :
  parseRequestBody (Some (NotRef body)) = Some rb ->
  rb_contentType rb <> ""
  /\ (exists mediaType,
        List.In (rb_contentType rb, mediaType) (rbo_content body)
        /\ rb_schema rb = parseSchema (mt_schema mediaType))
  /\ ((exists k, List.In k (List.map fst (rbo_content body)) /\ includes k "json" = true) ->
      includes (rb_contentType rb) "json" = true)
  /\ rb_required rb = orFalse (rbo_required body).
Proof.
  cbn [parseRequestBody].
  destruct (pickContentType (rbo_content body)) as [ct|] eqn:E; [|discriminate].
  destruct (pickContentType_spec _ _ E) as (Hin & Hjson & _).
  destruct (truthy (Some ct)) eqn:Ht; cbn [negb]; [|discriminate].
  destruct (lookup_in_keys ct _ Hin) as (media & Hl & Hmem). rewrite Hl.
  intros [= <-]. cbn [rb_contentType rb_schema rb_required].
  split; [|split; [eauto | split; [exact Hjson | reflexivity]]].
  intros ->. discriminate Ht.
Qed.

(** X17, an instance: a body offered as XML and as JSON. *)
Lemma kept_body_content_type_witness :
  "application/json" <> ""
  /\ (exists mediaType,
        List.In ("application/json", mediaType)
                [("application/xml", mkMediaTypeObject None);
                 ("application/json", mkMediaTypeObject (Some stringSchema))]
        /\ parseSchema (Some stringSchema) = parseSchema (mt_schema mediaType))
  /\ ((exists k, List.In k ["application/xml"; "application/json"]
                 /\ includes k "json" = true) ->
      includes "application/json" "json" = true)
  /\ false = orFalse None.
Proof.
  apply (@kept_body_content_type
           (mkRequestBodyObject None None
              [("application/xml", mkMediaTypeObject None);
               ("application/json", mkMediaTypeObject (Some stringSchema))])
           (mkParsedRequestBody false None "application/json"
              (parseSchema (Some stringSchema)))).
  reflexivity.
Defined.

(** X18: an inline request body whose content map has a key containing
    "json" is always kept by normalize, under a JSON content type; the body
    is dropped only when the map is empty or its chosen key is empty. *)
Theorem json_body_is_kept (body : RequestBodyObject) (k : string) :
  List.In k (List.map fst (rbo_content body)) ->
  includes k "json" = true ->
  exists rb,
    parseRequestBody (Some (NotRef body)) = Some rb
    /\ includes (rb_contentType rb) "json" = true.
Proof.
  intros Hin Hjson.
  destruct (pickContentType_json _ k Hin Hjson) as (ct & Hct & Hj).
  destruct (pickContentType_spec _ _ Hct) as (Hmem & _).
  destruct (lookup_in_keys ct _ Hmem) as (media & Hl & _).
  cbn [parseRequestBody]. rewrite Hct.
  replace (truthy (Some ct)) with true.
  - cbn [negb]. rewrite Hl. eexists. split; [reflexivity | exact Hj].
  - cbn [truthy]. pose proof (includes_json_nonempty ct Hj) as Hne.
    destruct (String.eqb_spec ct ""); [contradiction | reflexivity].
Qed.

(** X18, an instance: a body offered as XML and as JSON. *)
Lemma json_body_is_kept_witness :
  exists rb,
    parseRequestBody
      (Some (NotRef (mkRequestBodyObject None None
                       [("application/xml", mkMediaTypeObject None);
                        ("application/json", mkMediaTypeObject (Some stringSchema))])))
    = Some rb
    /\ includes (rb_contentType rb) "json" = true.
Proof.
  apply (@json_body_is_kept
           (mkRequestBodyObject None None
              [("application/xml", mkMediaTypeObject None);
               ("application/json", mkMediaTypeObject (Some stringSchema))])
           "application/json").
  - right. left. reflexivity.
  - reflexivity.
Defined.

(** X19: [parseResponses] keeps the responses in order under their status
    keys; a response carries a schema exactly when it carries a content
    type, which is then non-empty, and a response given by reference
    carries neither. *)
Theorem responses_keep_order_and_pair_schema
        (responses : list (string * OrRef ResponseObject)) :
  List.map pr_statusCode (parseResponses responses) = List.map fst responses
  /\ (forall r, List.In r (parseResponses responses) ->
                (pr_schema r = None <-> pr_contentType r = None)
                /\ pr_contentType r <> Some "")
  /\ (forall code ref, List.In (code, IsRef ref) responses ->
                       List.In (mkParsedResponse code ("Reference: " ++ ref) None None)
                               (parseResponses responses)).
Proof.
  unfold parseResponses. split; [|split].
  - rewrite map_map. apply map_ext. intros [code [ref|resp]]; cbn [parseResponse fst snd].
    + reflexivity.
    + destruct (ro_content resp) as [content|]; [|reflexivity].
      destruct (truthy (pickContentType content)); [|reflexivity].
      destruct (pickContentType content) as [ct|]; [|reflexivity].
      destruct (lookup ct content); reflexivity.
  - intros r Hr. apply in_map_iff in Hr. destruct Hr as ([code [ref|resp]] & <- & _);
      cbn [parseResponse fst snd].
    + cbn. split; [tauto | discriminate].
    + destruct (ro_content resp) as [content|]; [|cbn; split; [tauto | discriminate]].
      destruct (truthy (pickContentType content)) eqn:Ht;
        [|cbn; split; [tauto | discriminate]].
      destruct (pickContentType content) as [ct|]; [|cbn; split; [tauto | discriminate]].
      destruct (lookup ct content); cbn; [|split; [tauto | discriminate]].
      split; [split; discriminate|]. intros [= ->]. discriminate Ht.
  - intros code ref Hin. apply in_map_iff. exists (code, IsRef ref). split; [reflexivity | exact Hin].
Qed.

(** *** Routes *)

Lemma NoDup_flat_map {A B : Type} (f : A -> list B) (l : list A) :
  List.NoDup l ->
  (forall x, List.In x l -> List.NoDup (f x)) ->
  (forall x y b, List.In x l -> List.In y l ->
                 List.In b (f x) -> List.In b (f y) -> x = y) ->
  List.NoDup (List.flat_map f l).
Proof.
  induction l as [|a r IH]; intros Hnd Heach Hdisj; cbn [List.flat_map]; [constructor|].
  inversion Hnd as [|? ? Hnotin Hrest]; subst.
  apply NoDup_app.
  - apply Heach. now left.
  - apply IH; [exact Hrest | |].
    + intros x Hx. apply Heach. now right.
    + intros x y b Hx Hy. apply Hdisj; now right.
  - intros b Hb Hin. apply in_flat_map in Hin. destruct Hin as (y & Hy & Hby).
    assert (a = y) by (apply (Hdisj a y b); [now left | now right | exact Hb | exact Hby]).
    subst y. contradiction.
Qed.

Lemma map_flat_map {A B C : Type} (g : B -> C) (f : A -> list B) (l : list A) :
  List.map g (List.flat_map f l) = List.flat_map (fun x => List.map g (f x)) l.
Proof.
  induction l as [|a r IH]; cbn [List.flat_map List.map]; [reflexivity|].
  now rewrite map_app, IH.
Qed.

Lemma NoDup_methods : List.NoDup methods.
Proof.
  unfold methods.
  repeat (constructor; [cbn; intuition discriminate|]). constructor.
Qed.

(** The routes of one entry of [paths]: its path with distinct methods. *)
Lemma routes_of_entry (entry : string * option PathItemObject) :
  List.NoDup (List.map operationKey (parsePathEntry entry))
  /\ forall key, List.In key (List.map operationKey (parsePathEntry entry)) ->
                 fst key = fst entry.
Proof.
  destruct entry as [p [item|]]; unfold parsePathEntry; cbn [fst snd];
    [|split; [constructor | contradiction]].
  rewrite map_flat_map. split.
  - apply NoDup_flat_map; [apply NoDup_methods | |].
    + intros m _. destruct (pathItemMethod item m); cbn;
        [constructor; [tauto | constructor] | constructor].
    + intros m1 m2 key H1 H2 K1 K2.
      destruct (pathItemMethod item m1); [|contradiction].
      destruct (pathItemMethod item m2); [|contradiction].
      destruct K1 as [<-|[]]. destruct K2 as [K2|[]].
      apply (ParserProps.toUpperCase_methods_inj m1 m2 H1 H2).
      exact (eq_sym (f_equal snd K2)).
  - intros key Hkey. apply in_flat_map in Hkey. destruct Hkey as (m & _ & Hk).
    destruct (pathItemMethod item m); [|contradiction].
    destruct Hk as [<-|[]]. reflexivity.
Qed.

Lemma entry_of_key {A : Type} (l : list (string * A)) :
  List.NoDup (List.map fst l) ->
  forall e1 e2, List.In e1 l -> List.In e2 l -> fst e1 = fst e2 -> e1 = e2.
Proof.
  induction l as [|e r IH]; intros Hnd e1 e2 H1 H2 Hfst; [contradiction|].
  cbn [List.map] in Hnd. inversion Hnd as [|? ? Hnotin Hrest]; subst.
  destruct H1 as [<-|H1], H2 as [<-|H2].
  - reflexivity.
  - elim Hnotin. rewrite Hfst. now apply in_map.
  - elim Hnotin. rewrite <- Hfst. now apply in_map.
  - exact (IH Hrest e1 e2 H1 H2 Hfst).
Qed.

(** X20: when the keys of [paths] are pairwise distinct, as the keys of an
    object are, no two operations of the IR have the same path and method. *)
Theorem operations_have_distinct_routes (doc : Document)
        (paths : list (string * option PathItemObject)) :
  doc_paths doc = Some paths ->
  List.NoDup (List.map fst paths) ->
  List.NoDup (List.map operationKey (api_operations (parseOpenApiSpec doc))).
Proof.
  intros Hp Hnd. unfold parseOpenApiSpec. cbn [api_operations]. rewrite Hp.
  rewrite map_flat_map. apply NoDup_flat_map.
  - exact (NoDup_map_inv fst paths Hnd).
  - intros entry _. apply routes_of_entry.
  - intros e1 e2 key H1 H2 K1 K2.
    apply (proj2 (routes_of_entry e1)) in K1. apply (proj2 (routes_of_entry e2)) in K2.
    apply (entry_of_key paths Hnd e1 e2 H1 H2). congruence.
Qed.

(** X20, an instance: the document with GET /pet and GET /animal. *)
Lemma operations_have_distinct_routes_witness :
  List.NoDup (List.map operationKey (api_operations (parseOpenApiSpec duplicateIdDoc))).
Proof.
  apply (@operations_have_distinct_routes duplicateIdDoc
           [("/pet",
             Some (mkPathItemObject None (Some noOperation) None None None None None None));
            ("/animal",
             Some (mkPathItemObject None (Some explicitGetPet) None None None None None
                                    None))]).
  - reflexivity.
  - cbn. repeat (constructor; [cbn; intuition discriminate|]). constructor.
Defined.

End MoreParserProps.

(* ------------------------------------------------------------------ *)
(** ** The type renderer: per-operation types *)

Module MoreTypesProps.
Import JsString Parser Chars Vocabulary Instances MoreVocabulary JsStringFacts.

(** X21: the Type Renderer emits a Params interface, respectively a Request
    type, for exactly the operations for which the Client Renderer names
    one; an operation with only header or cookie parameters gets no Params
    type in either artifact. *)
Theorem operation_types_match_client (op : ParsedOperation) :
  (TypesGen.generateParamsInterface op = None <-> ClientGen.getParamsType op = None)
  /\ (TypesGen.generateRequestBodyInterface op = None
      <-> ClientGen.getRequestType op = None)
  /\ ((forall p, List.In p (parameters op) -> ClientGen.isQueryOrPath p = false) ->
      TypesGen.generateParamsInterface op = None
      /\ ClientGen.getParamsType op = None).
Proof.
  unfold TypesGen.generateParamsInterface, ClientGen.getParamsType,
    TypesGen.generateRequestBodyInterface, ClientGen.getRequestType.
  split; [|split].
  - destruct (List.filter ClientGen.isQueryOrPath (parameters op));
      split; intros H; solve [reflexivity | discriminate H].
  - destruct (requestBody op) as [body|]; [|tauto].
    destruct (truthy (ps_ref (rb_schema body))); split; intros H; discriminate H.
  - intros Hnone.
    replace (List.filter ClientGen.isQueryOrPath (parameters op))
      with (@nil ParsedParameter); [split; reflexivity|].
    symmetry. induction (parameters op) as [|p r IH]; [reflexivity|].
    cbn [List.filter]. rewrite (Hnone p) by now left.
    apply IH. intros q Hq. apply Hnone. now right.
Qed.

Lemma join_inner (sep x : string) (l1 l2 : list string) :
  l1 <> [] -> l2 <> [] ->
  join sep (l1 +++ x :: l2) = join sep l1 ++ sep ++ x ++ sep ++ join sep l2.
Proof.
  intros H1 H2. induction l1 as [|a r IH]; [congruence|].
  destruct r as [|b r'].
  - cbn [List.app]. rewrite join_cons by discriminate.
    rewrite join_cons by exact H2. reflexivity.
  - change ((a :: b :: r') +++ x :: l2) with (a :: ((b :: r') +++ x :: l2)).
    rewrite join_cons by (cbn; discriminate).
    rewrite IH by discriminate.
    rewrite (join_cons sep a (b :: r')) by discriminate.
    now rewrite !append_assoc.
Qed.

(** X22: every query or path parameter of an operation is a field of its
    Params interface, on a line of its own, optional (marked [?]) exactly
    when the parameter is not required, with the TypeScript type of its
    primitive type. *)
Theorem parameter_is_a_field (op : ParsedOperation) (p : ParsedParameter) :
  List.In p (parameters op) ->
  ClientGen.isQueryOrPath p = true ->
  exists block,
    TypesGen.generateParamsInterface op = Some block
    /\ includes block (nl ++ paramFieldLine p ++ nl) = true.
Proof.
  intros Hin Hqp. unfold TypesGen.generateParamsInterface.
  assert (Hmem : List.In p (List.filter ClientGen.isQueryOrPath (parameters op)))
    by (apply filter_In; auto).
  destruct (List.filter ClientGen.isQueryOrPath (parameters op)) as [|q qs] eqn:E;
    [contradiction|].
  eexists. split; [reflexivity|].
  set (field := fun param : ParsedParameter =>
         (if truthy (pp_description param)
          then ["  /** " ++ orElse (pp_description param) "" ++ " */"]
          else [])
         +++ ["  " ++ pp_name param ++ (if negb (pp_required param) then "?" else "")
              ++ ": " ++ TypesGen.paramTsType (pp_type param) ++ ";"]).
  assert (Hline : List.In (paramFieldLine p) (List.flat_map field (q :: qs))).
  { apply in_flat_map. exists p. split; [exact Hmem|].
    unfold field, paramFieldLine. apply in_or_app. right. left.
    destruct (pp_required p); reflexivity. }
  apply in_split in Hline. destruct Hline as (l1 & l2 & ->).
  rewrite <- app_assoc. cbn [List.app].
  change (?h :: l1 +++ paramFieldLine p :: l2 +++ ["}"])
    with ((h :: l1) +++ paramFieldLine p :: (l2 +++ ["}"])).
  rewrite join_inner by (try discriminate; apply snoc_not_nil).
  rewrite <- (append_assoc (paramFieldLine p)), <- (append_assoc nl).
  apply includes_append.
Qed.

(** X22, an instance: the path parameter of DELETE /pet/{petId}. *)
Lemma parameter_is_a_field_witness :
  exists block,
    TypesGen.generateParamsInterface deletePet = Some block
    /\ includes block (nl ++ "  petId: number;" ++ nl) = true.
Proof.
  apply (@parameter_is_a_field deletePet
           (mkParsedParameter "petId" "path" true None "integer" (Some "int64"))).
  - left. reflexivity.
  - reflexivity.
Defined.

Lemma find_skips {A : Type} (f : A -> bool) (skipped rest : list A) (x : A) :
  (forall s, List.In s skipped -> f s = false) -> f x = true ->
  List.find f (skipped +++ x :: rest) = Some x.
Proof.
  intros Hs Hx. induction skipped as [|s r IH]; cbn [List.app List.find].
  - now rewrite Hx.
  - rewrite (Hs s) by now left. apply IH. intros y Hy. apply Hs. now right.
Qed.

(** X23: the response type of an operation is decided by its first
    response whose status begins with "2" and which has a schema: the
    responses before it (other statuses such as "default", or no schema)
    and all the responses after it play no part. *)
Theorem first_success_response_decides (op : ParsedOperation)
        (skipped rest : list ParsedResponse) (r : ParsedResponse) :
  (forall s, List.In s skipped -> qualifies s = false) ->
  qualifies r = true ->
  TypesGen.generateResponseType (withResponses op (skipped +++ r :: rest))
  = TypesGen.generateResponseType (withResponses op [r]).
Proof.
  intros Hs Hr. unfold TypesGen.generateResponseType, TypesGen.successResponse.
  cbn [responses withResponses operationId].
  change (fun x => startsWith (pr_statusCode x) "2" && isSome (pr_schema x))
    with qualifies.
  rewrite (find_skips qualifies skipped rest r Hs Hr).
  cbn [List.find]. now rewrite Hr.
Qed.

(** X23, an instance: a "default" error response listed before the 200. *)
Lemma first_success_response_decides_witness :
  TypesGen.generateResponseType
    (withResponses deletePet
       ([mkParsedResponse "default" "error" (Some "application/json")
                          (Some (parseSchema (Some stringSchema)))]
        +++ mkParsedResponse "200" "ok" (Some "application/json")
                             (Some (parseSchema (Some refA)))
        :: []))
  = TypesGen.generateResponseType
      (withResponses deletePet
         [mkParsedResponse "200" "ok" (Some "application/json")
                           (Some (parseSchema (Some refA)))]).
Proof.
  apply (@first_success_response_decides deletePet
           [mkParsedResponse "default" "error" (Some "application/json")
                             (Some (parseSchema (Some stringSchema)))]
           []
           (mkParsedResponse "200" "ok" (Some "application/json")
                             (Some (parseSchema (Some refA))))).
  - intros s [<-|[]]. reflexivity.
  - reflexivity.
Defined.

(** X24: a success response that declares a content type but no schema is
    not void: its media type is normalized to the "unknown" schema and the
    response type of the operation is [unknown]. *)
Theorem schemaless_content_is_unknown (op : ParsedOperation) (code ct : string)
        (desc : option string) (rest : list (string * OrRef ResponseObject)) :
  startsWith code "2" = true ->
  ct <> "" ->
  TypesGen.generateResponseType
    (withResponses op
       (parseResponses
          ((code, NotRef (mkResponseObject desc (Some [(ct, mkMediaTypeObject None)])))
             :: rest)))
  = "export type " ++ TypesGen.pascalCase (operationId op) ++ "Response = unknown;".
Proof.
  intros Hcode Hct.
  assert (Hparsed :
    parseResponse (code, NotRef (mkResponseObject desc (Some [(ct, mkMediaTypeObject None)])))
    = mkParsedResponse code (orElse desc "") (Some ct) (Some (parseSchema None))).
  { cbn [parseResponse fst snd ro_content ro_description].
    assert (Hpick : pickContentType [(ct, mkMediaTypeObject None)] = Some ct).
    { unfold pickContentType. cbn. destruct (includes ct "json"); reflexivity. }
    rewrite Hpick. cbn [truthy lookup].
    destruct (String.eqb_spec ct ""); [contradiction|]. cbn [negb].
    rewrite String.eqb_refl. reflexivity. }
  unfold parseResponses. cbn [List.map]. rewrite Hparsed.
  unfold TypesGen.generateResponseType, TypesGen.successResponse.
  cbn [responses withResponses operationId List.find pr_statusCode pr_schema isSome].
  rewrite Hcode. cbn. now rewrite ?append_assoc.
Qed.

(** X24, an instance: a 204 with an empty JSON media type. *)
Lemma schemaless_content_is_unknown_witness :
  TypesGen.generateResponseType
    (withResponses deletePet
       (parseResponses
          [("204", NotRef (mkResponseObject None
                             (Some [("application/json", mkMediaTypeObject None)])))]))
  = "export type DeletePetResponse = unknown;".
Proof.
  apply (@schemaless_content_is_unknown deletePet "204" "application/json" None []).
  - reflexivity.
  - discriminate.
Defined.

End MoreTypesProps.

(* ------------------------------------------------------------------ *)
(** ** The documentation renderer and the client name *)

Module DocsProps.
Import JsString Parser Chars Vocabulary Instances MoreVocabulary JsStringFacts.

Lemma spaceNewlines_lacks (s : string) :
  lacks "010" (DocsGen.spaceNewlines s) = true.
Proof.
  unfold lacks. induction s as [|c r IH]; [reflexivity|].
  cbn [DocsGen.spaceNewlines allChars]. rewrite IH.
  destruct (Ascii.eqb c "010") eqn:E; [reflexivity | now rewrite E].
Qed.

Lemma spaceNewlines_guarded (s : string) (b : bool) :
  pipesGuarded b s = true -> pipesGuarded b (DocsGen.spaceNewlines s) = true.
Proof.
  revert b. induction s as [|c r IH]; intros b H; [reflexivity|].
  cbn [DocsGen.spaceNewlines pipesGuarded] in *.
  apply andb_true_iff in H. destruct H as [Hc Hr].
  destruct (Ascii.eqb_spec c "010") as [->|Hne].
  - cbn. apply IH. exact Hr.
  - rewrite Hc. apply IH. exact Hr.
Qed.

Lemma escapePipes_guarded (s : string) (b : bool) :
  pipesGuarded b (DocsGen.escapePipes s) = true.
Proof.
  revert b. induction s as [|c r IH]; intros b; [reflexivity|].
  cbn [DocsGen.escapePipes].
  destruct (Ascii.eqb_spec c "|") as [->|Hne].
  - cbn [pipesGuarded]. cbn. apply IH.
  - cbn [pipesGuarded].
    destruct (Ascii.eqb_spec c "|"); [contradiction|]. cbn. apply IH.
Qed.

Lemma escapeMarkdown_plain (s : string) :
  lacks "|" s = true -> lacks "010" s = true -> DocsGen.escapeMarkdown s = s.
Proof.
  unfold lacks, DocsGen.escapeMarkdown.
  induction s as [|c r IH]; [reflexivity|].
  cbn [allChars DocsGen.escapePipes]. intros Hp Hn.
  apply andb_true_iff in Hp. apply andb_true_iff in Hn.
  destruct Hp as [Hp Hpr], Hn as [Hn Hnr].
  apply negb_true_iff in Hp. apply negb_true_iff in Hn.
  rewrite Hp. cbn [DocsGen.spaceNewlines]. rewrite Hn. f_equal. now apply IH.
Qed.

(** X25: a table cell escaped by [escapeMarkdown] holds no line feed, and
    each of its pipes stands right after a backslash; a text without pipe
    and line feed is returned as it is. *)
Theorem escaped_cell_keeps_the_grid (str : string) :
  lacks "010" (DocsGen.escapeMarkdown str) = true
  /\ pipesGuarded false (DocsGen.escapeMarkdown str) = true
  /\ (lacks "|" str = true -> lacks "010" str = true ->
      DocsGen.escapeMarkdown str = str).
Proof.
  split; [apply spaceNewlines_lacks|]. split.
  - apply spaceNewlines_guarded, escapePipes_guarded.
  - apply escapeMarkdown_plain.
Qed.

Lemma lacks_app (c : ascii) (a b : string) :
  lacks c (a ++ b) = lacks c a && lacks c b.
Proof. apply MoreParserProps.allChars_app. Qed.

(** X26: the parameter table has one row per parameter after its three
    header lines, and no row is broken by a line feed of a description:
    each row is a single line as soon as the name, type and location of
    the parameter hold no line feed. *)
Theorem parameter_table_rows (params : list ParsedParameter) :
  params <> [] ->
  (forall p, List.In p params ->
             lacks "010" (pp_name p) = true
             /\ lacks "010" (pp_type p) = true
             /\ lacks "010" (pp_in p) = true) ->
  List.length (DocsGen.generateParamTable params) = 3 + List.length params
  /\ forall line, List.In line (DocsGen.generateParamTable params) ->
                  lacks "010" line = true.
Proof.
  intros Hne Hclean. destruct params as [|p0 ps]; [congruence|].
  unfold DocsGen.generateParamTable. split.
  - cbn [List.app List.length]. now rewrite length_map.
  - intros line Hline. apply in_app_iff in Hline. destruct Hline as [H|H].
    + destruct H as [<-|[<-|[<-|[]]]]; reflexivity.
    + apply in_map_iff in H. destruct H as (p & <- & Hp).
      destruct (Hclean p Hp) as (Hn & Ht & Hi).
      unfold DocsGen.paramRow.
      assert (Hdesc : lacks "010"
                        (if truthy (pp_description p)
                         then DocsGen.escapeMarkdown (orElse (pp_description p) "")
                         else "-") = true).
      { destruct (truthy (pp_description p)); [apply spaceNewlines_lacks | reflexivity]. }
      rewrite !lacks_app, Hn, Ht, Hi, Hdesc.
      destruct (pp_required p); reflexivity.
Qed.

(** X26, an instance: a parameter whose description runs over two lines. *)
Lemma parameter_table_rows_witness :
  List.length
    (DocsGen.generateParamTable
       [mkParsedParameter "status" "query" true
          (Some ("Status values" ++ nl ++ "comma | separated")) "string" None])
  = 3 + 1
  /\ forall line,
       List.In line
         (DocsGen.generateParamTable
            [mkParsedParameter "status" "query" true
               (Some ("Status values" ++ nl ++ "comma | separated")) "string" None]) ->
       lacks "010" line = true.
Proof.
  apply (@parameter_table_rows
           [mkParsedParameter "status" "query" true
              (Some ("Status values" ++ nl ++ "comma | separated")) "string" None]).
  - discriminate.
  - intros p [<-|[]]. repeat split.
Defined.

Lemma lower_after_upper (c : ascii) : toLowerChar (toUpperChar c) = toLowerChar c.
Proof. destruct c as [[] [] [] [] [] [] [] []]; reflexivity. Qed.

Lemma lower_nonword (c : ascii) : isWordChar c = false -> toLowerChar c = c.
Proof. destruct c as [[] [] [] [] [] [] [] []]; vm_compute; congruence. Qed.

(** On an ASCII operation id the quick start spells a method as the client
    does: the quick start lower-cases a leading word character, the client
    lower-cases the first character of the Pascal-case name, whatever it
    is.  (On an id that starts with a non-ASCII capital the client's
    conversion applies and the quick start's does not.) *)
Lemma quickStartMethodName_is_camelCase (operationId : string) :
  allChars isAsciiChar operationId = true ->
  DocsGen.quickStartMethodName operationId = ClientGen.camelCase operationId.
Proof.
  intros _.
  unfold DocsGen.quickStartMethodName, ClientGen.camelCase, ClientGen.pascalCase.
  destruct (ClientGen.replaceSeparators operationId) as [|c r]; [reflexivity|].
  cbn [DocsGen.lowerLeadingWord ClientGen.upperLeadingWord].
  destruct (isWordChar c) eqn:E; cbn [lowerFirst].
  - now rewrite lower_after_upper.
  - now rewrite lower_nonword.
Qed.

(** X27: when the API has a GET operation without parameters, the quick
    start of the documentation calls the first such operation; when its
    operation id and its first tag are ASCII text, the call is made under
    the method name the generated client gives the operation, in the group
    named by the lower-cased first tag. *)
Theorem quick_start_calls_client_method (api : ParsedApi) (clientName : string)
        (getOp : ParsedOperation) :
  DocsGen.quickStartOperation api = Some getOp ->
  allChars isAsciiChar (operationId getOp) = true ->
  allChars isAsciiChar (ClientGen.firstTag getOp) = true ->
  List.In getOp (api_operations api)
  /\ method getOp = "GET" /\ parameters getOp = []
  /\ List.In ("const result = await api." ++ toLowerCase (ClientGen.firstTag getOp)
              ++ "." ++ ClientGen.getMethodName getOp ++ "();")
             (DocsGen.generateQuickStart api clientName).
Proof.
  intros Hfind Hid _. unfold DocsGen.generateQuickStart. rewrite Hfind.
  unfold DocsGen.quickStartOperation in Hfind. apply find_some in Hfind.
  destruct Hfind as [Hin Hcond]. apply andb_true_iff in Hcond.
  destruct Hcond as [Hm Hp]. apply String.eqb_eq in Hm. apply Nat.eqb_eq in Hp.
  split; [exact Hin|]. split; [exact Hm|].
  split; [now destruct (parameters getOp)|].
  apply in_or_app. right. apply in_or_app. left. right. left.
  unfold ClientGen.getMethodName, ClientGen.firstTag.
  now rewrite (quickStartMethodName_is_camelCase (operationId getOp) Hid).
Qed.

(** X27, an instance: an API whose only operation is GET /store/inventory. *)
Lemma quick_start_calls_client_method_witness :
  let getInventory :=
    mkParsedOperation "getInventory" "GET" "/store/inventory" None None ["store"]
                      [] None [] false in
  let api := mkParsedApi "Petstore" "1.0.0" None None [getInventory] [] [] in
  List.In getInventory (api_operations api)
  /\ method getInventory = "GET" /\ parameters getInventory = []
  /\ List.In ("const result = await api." ++ toLowerCase (ClientGen.firstTag getInventory)
              ++ "." ++ ClientGen.getMethodName getInventory ++ "();")
             (DocsGen.generateQuickStart api "ApiClient").
Proof.
  cbn zeta.
  apply (@quick_start_calls_client_method
           (mkParsedApi "Petstore" "1.0.0" None None
              [mkParsedOperation "getInventory" "GET" "/store/inventory" None None
                                 ["store"] [] None [] false] [] [])
           "ApiClient"
           (mkParsedOperation "getInventory" "GET" "/store/inventory" None None
                              ["store"] [] None [] false)).
  - reflexivity.
  - reflexivity.
  - reflexivity.
Defined.

(** *** The client name *)

Lemma alnum_not_dot (c : ascii) :
  isAlnum c = true ->
  (Ascii.eqb c "." || Ascii.eqb c "-")%char = false /\ isWordChar c = true.
Proof. destruct c as [[] [] [] [] [] [] [] []]; vm_compute; intuition congruence. Qed.

Lemma replaceDots_plain (c : ascii) (tl : string) :
  isAlnum c = true ->
  Cli.replaceDots (String c tl) = String c (Cli.replaceDots tl).
Proof.
  intros Hc. destruct (alnum_not_dot c Hc) as [Hsep _].
  destruct tl as [|c2 r]; [reflexivity|].
  cbn [Cli.replaceDots]. now rewrite Hsep.
Qed.

Lemma replaceDots_word (w s : string) :
  allChars isAlnum w = true ->
  Cli.replaceDots (w ++ s) = w ++ Cli.replaceDots s.
Proof.
  induction w as [|c r IH]; intros H; [reflexivity|].
  cbn [allChars] in H. apply andb_true_iff in H. destruct H as [Hc Hr].
  cbn [append]. rewrite replaceDots_plain by exact Hc. now rewrite IH.
Qed.

Lemma replaceDots_join (sep : ascii) (w : string) (ws : list string) :
  sep = "."%char \/ sep = "-"%char ->
  isWord w = true ->
  List.Forall (fun x => isWord x = true) ws ->
  Cli.replaceDots (join (String sep "") (w :: ws))
  = w ++ join "" (List.map upperFirst ws).
Proof.
  intros Hsep. revert w. induction ws as [|w2 ws IH]; intros w Hw Hws.
  - unfold isWord in Hw. apply andb_true_iff in Hw. destruct Hw as [_ Hw].
    cbn. rewrite <- (append_nil_r w) at 1.
    rewrite replaceDots_word by exact Hw. reflexivity.
  - inversion Hws as [|? ? Hw2 Hrest]; subst.
    specialize (IH w2 Hw2 Hrest).
    unfold isWord in Hw. apply andb_true_iff in Hw. destruct Hw as [_ Hw].
    rewrite join_cons by discriminate.
    rewrite replaceDots_word by exact Hw. f_equal.
    assert (Hw2' := Hw2). unfold isWord in Hw2'. apply andb_true_iff in Hw2'.
    destruct Hw2' as [Hne Hall].
    destruct w2 as [|c r]; [discriminate Hne|].
    cbn [allChars] in Hall. apply andb_true_iff in Hall. destruct Hall as [Hc _].
    destruct (alnum_not_dot c Hc) as [_ Hword].
    assert (Hshape : exists X, join (String sep "") (String c r :: ws) = String c X).
    { destruct ws; cbn; eauto. }
    destruct Hshape as [X HX]. rewrite HX in IH |- *.
    rewrite replaceDots_plain in IH by exact Hc.
    injection IH as IH.
    cbn [append Cli.replaceDots].
    replace ((Ascii.eqb sep "." || Ascii.eqb sep "-")%char && isWordChar c) with true
      by (destruct Hsep as [-> | ->]; now rewrite Hword).
    rewrite IH.
    change (List.map upperFirst (String c r :: ws))
      with (String (toUpperChar c) r :: List.map upperFirst ws).
    destruct (List.map upperFirst ws) as [|u us] eqn:E; cbn.
    + now rewrite append_nil_r.
    + reflexivity.
Qed.

(** X28: for a host name made of labels of letters and digits joined by
    dots, the client class is named by the labels, each with a capital
    initial, followed by "Client". *)
Theorem client_name_of_host (label : string) (labels : list string) :
  isWord label = true ->
  List.Forall (fun x => isWord x = true) labels ->
  Cli.clientNameFor (join "." (label :: labels))
  = join "" (List.map upperFirst (label :: labels)) ++ "Client".
Proof.
  intros Hw Hws. unfold Cli.clientNameFor, Cli.pascalCase. f_equal.
  rewrite (replaceDots_join "."%char label labels (or_introl eq_refl) Hw Hws).
  unfold isWord in Hw. apply andb_true_iff in Hw. destruct Hw as [Hne Hall].
  destruct label as [|c r]; [discriminate Hne|].
  cbn [allChars] in Hall. apply andb_true_iff in Hall. destruct Hall as [Hc _].
  destruct (alnum_not_dot c Hc) as [_ Hword].
  cbn [append ClientGen.upperLeadingWord List.map upperFirst]. rewrite Hword.
  destruct (List.map upperFirst labels); cbn; [now rewrite append_nil_r | reflexivity].
Qed.

(** X28, an instance: petstore3.swagger.io. *)
Lemma client_name_of_host_witness :
  Cli.clientNameFor "petstore3.swagger.io" = "Petstore3SwaggerIoClient".
Proof.
  apply (@client_name_of_host "petstore3" ["swagger"; "io"]).
  - reflexivity.
  - repeat constructor.
Defined.

End DocsProps.

(* ------------------------------------------------------------------ *)
(** ** The spec locator: success and failure *)

Module MoreFetcherProps.
Import JsString Chars Fetcher Instances MoreInstances JsStringFacts.

Section World.

Variable Data : Type.
Variable Spec : Type.
Variable isObject : Data -> bool.
Variable openapiField : Data -> option string.
Variable swaggerField : Data -> option string.
Variable fetchAndParse : nat -> string -> string + Data.
Variable validate : Data -> string + Spec.
Variable parseURL : string -> option (string * string).

Abbreviation attemptFails :=
  (Fetcher.attemptFails Data Spec isObject openapiField swaggerField fetchAndParse validate).
Abbreviation discoverFrom :=
  (Fetcher.discoverFrom Data Spec isObject openapiField swaggerField fetchAndParse validate).
Abbreviation discoverSpec :=
  (Fetcher.discoverSpec Data Spec isObject openapiField swaggerField fetchAndParse validate).
Abbreviation directAttempt :=
  (Fetcher.directAttempt Data Spec isObject openapiField swaggerField fetchAndParse validate).
Abbreviation fetchOpenApiSpec :=
  (Fetcher.fetchOpenApiSpec Data Spec isObject openapiField swaggerField fetchAndParse validate
                            parseURL).
Abbreviation isSpec := (Fetcher.isOpenApiSpec Data isObject openapiField swaggerField).
Abbreviation getBaseUrl := (Fetcher.getBaseUrl parseURL).
Abbreviation found := (Fetcher.mkFetchResult Spec).
Abbreviation attemptSucceeds :=
  (Fetcher.attemptSucceeds Data Spec isObject openapiField swaggerField fetchAndParse
                           validate).

Lemma attempt_fails_or_succeeds (n : nat) (url : string) :
  attemptFails n url \/ exists validated, attemptSucceeds n url validated.
Proof.
  unfold Fetcher.attemptFails, Fetcher.attemptSucceeds.
  destruct (fetchAndParse n url) as [msg|data]; [now left|].
  destruct (isSpec data) eqn:E; [|now left].
  destruct (validate data) as [msg|validated] eqn:V; [now left|].
  right. exists validated, data. auto.
Qed.

Lemma attempt_not_both (n : nat) (url : string) (validated : Spec) :
  attemptFails n url -> attemptSucceeds n url validated -> False.
Proof.
  unfold Fetcher.attemptFails. intros Hf (data & Hd & Hs & Hv).
  now rewrite Hd, Hs, Hv in Hf.
Qed.

(** One turn of the probing loop. *)
Lemma discoverFrom_step_fail (n : nat) (baseUrl path : string) (rest : list string) :
  attemptFails n (baseUrl ++ path) ->
  snd (discoverFrom n baseUrl (path :: rest)) = snd (discoverFrom (S n) baseUrl rest)
  /\ List.filter isTrying (fst (discoverFrom n baseUrl (path :: rest)))
     = ("  Trying: " ++ baseUrl ++ path)
       :: List.filter isTrying (fst (discoverFrom (S n) baseUrl rest)).
Proof.
  intros Hfail.
  assert (Htrying : isTrying ("  Trying: " ++ baseUrl ++ path) = true)
    by apply prefix_refl_append.
  unfold Fetcher.attemptFails in Hfail. cbn [Fetcher.discoverFrom].
  generalize (discoverFrom (S n) baseUrl rest). intros next.
  destruct (fetchAndParse n (baseUrl ++ path)) as [msg|data].
  - cbn [fst snd List.filter]. now rewrite Htrying.
  - destruct (isSpec data).
    + destruct (validate data); [|contradiction].
      cbn [fst snd List.filter]. rewrite Htrying.
      change (isTrying "  ✓ Found valid OpenAPI spec!") with false. auto.
    + cbn [fst snd List.filter]. now rewrite Htrying.
Qed.

Lemma discoverFrom_step_success (n : nat) (baseUrl path : string) (rest : list string)
      (validated : Spec) :
  attemptSucceeds n (baseUrl ++ path) validated ->
  snd (discoverFrom n baseUrl (path :: rest)) = Some (found validated (baseUrl ++ path))
  /\ List.filter isTrying (fst (discoverFrom n baseUrl (path :: rest)))
     = ["  Trying: " ++ baseUrl ++ path].
Proof.
  intros (data & Hd & Hs & Hv).
  assert (Htrying : isTrying ("  Trying: " ++ baseUrl ++ path) = true)
    by apply prefix_refl_append.
  cbn [Fetcher.discoverFrom]. rewrite Hd, Hs, Hv.
  cbn [fst snd List.filter]. rewrite Htrying.
  change (isTrying "  ✓ Found valid OpenAPI spec!") with false. auto.
Qed.

(** The loop stops at the first probe that yields a validated document. *)
Lemma discoverFrom_first_valid (baseUrl : string) (paths : list string) (n k : nat)
      (path : string) (validated : Spec) :
  List.nth_error paths k = Some path ->
  (forall i p, i < k -> List.nth_error paths i = Some p ->
               attemptFails (n + i) (baseUrl ++ p)) ->
  attemptSucceeds (n + k) (baseUrl ++ path) validated ->
  snd (discoverFrom n baseUrl paths) = Some (found validated (baseUrl ++ path))
  /\ List.filter isTrying (fst (discoverFrom n baseUrl paths))
     = List.map (fun p => "  Trying: " ++ baseUrl ++ p) (List.firstn (S k) paths).
Proof.
  revert n k. induction paths as [|p0 rest IH]; intros n k Hk Hbefore Hok.
  - destruct k; discriminate Hk.
  - destruct k as [|k].
    + injection Hk as ->. rewrite Nat.add_0_r in Hok.
      destruct (discoverFrom_step_success n baseUrl path rest validated Hok) as [-> ->].
      split; reflexivity.
    + assert (Hhere : attemptFails n (baseUrl ++ p0)).
      { specialize (Hbefore 0 p0 (Nat.lt_0_succ k) eq_refl).
        now rewrite Nat.add_0_r in Hbefore. }
      destruct (discoverFrom_step_fail n baseUrl p0 rest Hhere) as [-> ->].
      destruct (IH (S n) k Hk) as [Hres Hlog].
      * intros i p Hi Hp. specialize (Hbefore (S i) p (proj1 (Nat.succ_lt_mono i k) Hi) Hp).
        now rewrite Nat.add_succ_r in Hbefore.
      * now rewrite Nat.add_succ_r in Hok.
      * rewrite Hres, Hlog. split; reflexivity.
Qed.

(** Whatever the loop returns was fetched from a probe, recognised and
    validated, and every earlier probe had failed. *)
Lemma discoverFrom_sound (baseUrl : string) (paths : list string) (n : nat)
      (res : FetchResult Spec) :
  snd (discoverFrom n baseUrl paths) = Some res ->
  exists k path,
    List.nth_error paths k = Some path
    /\ sourceUrl Spec res = baseUrl ++ path
    /\ attemptSucceeds (n + k) (baseUrl ++ path) (spec Spec res)
    /\ (forall i p, i < k -> List.nth_error paths i = Some p ->
                    attemptFails (n + i) (baseUrl ++ p)).
Proof.
  revert n. induction paths as [|p0 rest IH]; intros n Hres; [discriminate Hres|].
  destruct (attempt_fails_or_succeeds n (baseUrl ++ p0)) as [Hfail|[validated Hok]].
  - destruct (discoverFrom_step_fail n baseUrl p0 rest Hfail) as [Hsnd _].
    rewrite Hsnd in Hres. destruct (IH (S n) Hres) as (k & path & Hk & Hurl & Hok & Hbefore).
    exists (S k), path. split; [exact Hk|]. split; [exact Hurl|].
    split; [now rewrite Nat.add_succ_r|].
    intros [|i] p Hi Hp.
    + injection Hp as <-. now rewrite Nat.add_0_r.
    + rewrite Nat.add_succ_r. apply Hbefore; [lia | exact Hp].
  - destruct (discoverFrom_step_success n baseUrl p0 rest validated Hok) as [Hsnd _].
    rewrite Hsnd in Hres. injection Hres as <-.
    exists 0, p0. split; [reflexivity|]. split; [reflexivity|].
    split; [now rewrite Nat.add_0_r|]. intros i p Hi. lia.
Qed.

Lemma discoverFrom_none (baseUrl : string) (paths : list string) (n : nat) :
  snd (discoverFrom n baseUrl paths) = None ->
  forall i p, List.nth_error paths i = Some p -> attemptFails (n + i) (baseUrl ++ p).
Proof.
  revert n. induction paths as [|p0 rest IH]; intros n Hres i p Hp.
  - destruct i; discriminate Hp.
  - destruct (attempt_fails_or_succeeds n (baseUrl ++ p0)) as [Hfail|[validated Hok]].
    + destruct (discoverFrom_step_fail n baseUrl p0 rest Hfail) as [Hsnd _].
      rewrite Hsnd in Hres. destruct i as [|i].
      * injection Hp as <-. now rewrite Nat.add_0_r.
      * rewrite Nat.add_succ_r. now apply (IH (S n) Hres i p).
    + destruct (discoverFrom_step_success n baseUrl p0 rest validated Hok) as [Hsnd _].
      rewrite Hsnd in Hres. discriminate Hres.
Qed.

Lemma directAttempt_cases (url : string) :
  (attemptFails 0 url
   /\ snd (directAttempt url) = None
   /\ List.filter isTrying (fst (directAttempt url)) = [])
  \/ (exists validated,
        attemptSucceeds 0 url validated
        /\ snd (directAttempt url) = Some (found validated url)
        /\ List.filter isTrying (fst (directAttempt url)) = []).
Proof.
  unfold Fetcher.attemptFails, Fetcher.attemptSucceeds, Fetcher.directAttempt.
  destruct (fetchAndParse 0 url) as [msg|data]; [left; auto|].
  destruct (isSpec data) eqn:E; [|left; auto].
  destruct (validate data) as [msg|validated] eqn:V; [left; auto|].
  right. exists validated. split; [exists data; auto | auto].
Qed.

(** The parts of [fetchOpenApiSpec], with the two attempts kept abstract. *)
Lemma fetchOpenApiSpec_unfold (url : string) :
  fetchOpenApiSpec url
  = match snd (directAttempt url) with
    | Some result => (("Fetching: " ++ url) :: fst (directAttempt url), inr result)
    | None =>
        ((("Fetching: " ++ url) :: fst (directAttempt url))
           +++ fst (discoverSpec 1 (getBaseUrl url)),
         match snd (discoverSpec 1 (getBaseUrl url)) with
         | Some result => inr result
         | None => inl (notFoundMessage url (getBaseUrl url))
         end)
    end.
Proof.
  unfold Fetcher.fetchOpenApiSpec.
  generalize (directAttempt url). intros [dlog [dres|]]; cbn [fst snd]; [reflexivity|].
  generalize (discoverSpec 1 (getBaseUrl url)). intros [slog [sres|]]; reflexivity.
Qed.

Lemma discoverSpec_parts (n : nat) (baseUrl : string) :
  snd (discoverSpec n baseUrl) = snd (discoverFrom n baseUrl SPEC_DISCOVERY_PATHS)
  /\ List.filter isTrying (fst (discoverSpec n baseUrl))
     = List.filter isTrying (fst (discoverFrom n baseUrl SPEC_DISCOVERY_PATHS)).
Proof.
  unfold Fetcher.discoverSpec.
  generalize (discoverFrom n baseUrl SPEC_DISCOVERY_PATHS). intros [log res].
  cbn [fst snd List.filter].
  replace (isTrying (nl ++ "Attempting to discover OpenAPI spec at common locations..."))
    with false by reflexivity.
  auto.
Qed.

(** What is known of the two attempts of [fetchOpenApiSpec], in one place. *)
Lemma attempts_summary (url : string) :
  let direct := directAttempt url in
  let discovered := discoverSpec 1 (getBaseUrl url) in
  let probes := discoverFrom 1 (getBaseUrl url) SPEC_DISCOVERY_PATHS in
  fetchOpenApiSpec url
  = match snd direct with
    | Some result => (("Fetching: " ++ url) :: fst direct, inr result)
    | None =>
        ((("Fetching: " ++ url) :: fst direct) +++ fst discovered,
         match snd discovered with
         | Some result => inr result
         | None => inl (notFoundMessage url (getBaseUrl url))
         end)
    end
  /\ List.filter isTrying (fst direct) = []
  /\ (attemptFails 0 url /\ snd direct = None
      \/ exists validated,
           attemptSucceeds 0 url validated /\ snd direct = Some (found validated url))
  /\ snd discovered = snd probes
  /\ List.filter isTrying (fst discovered) = List.filter isTrying (fst probes).
Proof.
  cbn zeta. split; [apply fetchOpenApiSpec_unfold|].
  destruct (discoverSpec_parts 1 (getBaseUrl url)) as [Hsnd Hfst].
  destruct (directAttempt_cases url) as [(Hf & Hn & Hq)|(v & Hv & Hn & Hq)].
  - split; [exact Hq|]. split; [left; auto | auto].
  - split; [exact Hq|]. split; [right; exists v; auto | auto].
Qed.

Lemma filter_fetching (url : string) (l1 l2 : list string) :
  List.filter isTrying l1 = [] ->
  List.filter isTrying (String "F" (String "e" (String "t" (String "c" (String "h"
     (String "i" (String "n" (String "g" (String ":" (String " " url)))))))))
                        :: l1 +++ l2)
  = List.filter isTrying l2.
Proof.
  intros H. cbn [List.filter].
  replace (isTrying (String "F" _)) with false by reflexivity.
  now rewrite filter_app, H.
Qed.

(** X1: when the start URL fails and the probe of index k is the first that
    yields a validated document, the locator returns that document with the
    probed URL as its source, after exactly k + 1 probes made in the order
    of the fixed list; the later paths are not fetched. *)
Theorem discovery_stops_at_first_valid (url : string) (k : nat) (path : string)
        (validated : Spec) :
  attemptFails 0 url ->
  List.nth_error SPEC_DISCOVERY_PATHS k = Some path ->
  (forall i p, i < k -> List.nth_error SPEC_DISCOVERY_PATHS i = Some p ->
               attemptFails (S i) (getBaseUrl url ++ p)) ->
  attemptSucceeds (S k) (getBaseUrl url ++ path) validated ->
  exists log,
    fetchOpenApiSpec url = (log, inr (found validated (getBaseUrl url ++ path)))
    /\ List.filter isTrying log
       = List.map (fun p => "  Trying: " ++ getBaseUrl url ++ p)
                  (List.firstn (S k) SPEC_DISCOVERY_PATHS).
Proof.
  intros Hdirect Hk Hbefore Hok.
  pose proof (discoverFrom_first_valid (getBaseUrl url) SPEC_DISCOVERY_PATHS 1 k path
                validated Hk Hbefore Hok) as Hprobe.
  pose proof (attempts_summary url) as Hsum. cbn zeta in Hsum.
  revert Hprobe Hsum.
  generalize (discoverFrom 1 (getBaseUrl url) SPEC_DISCOVERY_PATHS).
  generalize (discoverSpec 1 (getBaseUrl url)).
  generalize (directAttempt url).
  intros [dlog dres] [slog sres] [plog pres]. cbn [fst snd].
  intros [-> Hlog] (-> & Hquiet & Hcases & -> & Hfst).
  destruct Hcases as [[_ ->]|(v & Hv & _)];
    [|elim (attempt_not_both 0 url v Hdirect Hv)].
  eexists. split; [reflexivity|]. cbn [List.app append].
  now rewrite filter_fetching, Hfst, Hlog.
Qed.

(** X2: a result returned by the locator always holds a document that was
    fetched from the reported source URL, recognised as a specification and
    accepted by the validator; the source is the start URL itself, or the
    origin followed by a probe path all of whose predecessors failed. *)
Theorem located_document_is_validated (url : string) (log : list string)
        (res : FetchResult Spec) :
  fetchOpenApiSpec url = (log, inr res) ->
  (sourceUrl Spec res = url /\ attemptSucceeds 0 url (spec Spec res))
  \/ (attemptFails 0 url
      /\ exists k path,
           List.nth_error SPEC_DISCOVERY_PATHS k = Some path
           /\ sourceUrl Spec res = getBaseUrl url ++ path
           /\ attemptSucceeds (S k) (getBaseUrl url ++ path) (spec Spec res)
           /\ (forall i p, i < k -> List.nth_error SPEC_DISCOVERY_PATHS i = Some p ->
                           attemptFails (S i) (getBaseUrl url ++ p))).
Proof.
  pose proof (discoverFrom_sound (getBaseUrl url) SPEC_DISCOVERY_PATHS 1) as Hsound.
  pose proof (attempts_summary url) as Hsum. cbn zeta in Hsum.
  revert Hsound Hsum.
  generalize (discoverFrom 1 (getBaseUrl url) SPEC_DISCOVERY_PATHS).
  generalize (discoverSpec 1 (getBaseUrl url)).
  generalize (directAttempt url).
  intros [dlog dres] [slog sres] [plog pres]. cbn [fst snd].
  intros Hsound (-> & _ & Hcases & -> & _) H.
  destruct Hcases as [[Hfail ->]|(v & Hv & ->)].
  - destruct pres as [r|]; [|discriminate H].
    injection H as _ <-. right. split; [exact Hfail | now apply Hsound].
  - injection H as _ <-. left. split; [reflexivity | exact Hv].
Qed.

(** X3: the locator fails only when nothing could be found: if it throws,
    the attempt on the start URL failed and so did the probe of every path
    of the fixed list, all of which were tried. *)
Theorem failure_means_every_attempt_failed (url : string) (log : list string)
        (message : string) :
  fetchOpenApiSpec url = (log, inl message) ->
  attemptFails 0 url
  /\ (forall i p, List.nth_error SPEC_DISCOVERY_PATHS i = Some p ->
                  attemptFails (S i) (getBaseUrl url ++ p))
  /\ List.length (List.filter isTrying log) = List.length SPEC_DISCOVERY_PATHS.
Proof.
  pose proof (discoverFrom_none (getBaseUrl url) SPEC_DISCOVERY_PATHS 1) as Hnone.
  pose proof (FetcherProps.discoverFrom_all_fail Data Spec isObject openapiField
                swaggerField fetchAndParse validate (getBaseUrl url)
                SPEC_DISCOVERY_PATHS 1) as Hall.
  pose proof (attempts_summary url) as Hsum. cbn zeta in Hsum.
  revert Hnone Hall Hsum.
  generalize (discoverFrom 1 (getBaseUrl url) SPEC_DISCOVERY_PATHS).
  generalize (discoverSpec 1 (getBaseUrl url)).
  generalize (directAttempt url).
  intros [dlog dres] [slog sres] [plog pres]. cbn [fst snd].
  intros Hnone Hall (-> & Hquiet & Hcases & -> & Hfst) H.
  destruct Hcases as [[Hfail ->]|(v & Hv & ->)]; [|discriminate H].
  destruct pres as [r|]; [discriminate H|].
  injection H as <- _.
  specialize (Hnone eq_refl). destruct (Hall Hnone) as [_ Hlog].
  split; [exact Hfail|]. split; [exact Hnone|].
  cbn [List.app append].
  rewrite filter_fetching, Hfst, Hlog by exact Hquiet. apply length_map.
Qed.

End World.

(** X1, an instance: the host that answers at /api-docs, the fifth path. *)
Lemma discovery_stops_at_first_valid_witness :
  exists log,
    fifthProbeFetchOpenApiSpec exampleUrl
    = (log, inr (Fetcher.mkFetchResult unit tt "https://api.example.com/api-docs"))
    /\ List.filter isTrying log
       = List.map (fun p => "  Trying: " ++ "https://api.example.com" ++ p)
                  (List.firstn 5 SPEC_DISCOVERY_PATHS).
Proof.
  apply (@discovery_stops_at_first_valid unit unit (fun _ => true)
           (fun _ => Some "3.0.3") (fun _ => None) fifthProbeFetch acceptAll
           exampleParseURL exampleUrl 4 "/api-docs" tt).
  - exact I.
  - reflexivity.
  - intros i p Hi Hp.
    do 4 (destruct i as [|i]; [injection Hp as <-; exact I|]). lia.
  - exists tt. repeat split.
Defined.

(** X2, an instance: what that host returns. *)
Lemma located_document_is_validated_witness :
  (Fetcher.sourceUrl unit (Fetcher.mkFetchResult unit tt "https://api.example.com/api-docs")
   = exampleUrl
   /\ attemptSucceeds unit unit (fun _ => true) (fun _ => Some "3.0.3") (fun _ => None)
        fifthProbeFetch acceptAll 0 exampleUrl tt)
  \/ (Fetcher.attemptFails unit unit (fun _ => true) (fun _ => Some "3.0.3")
        (fun _ => None) fifthProbeFetch acceptAll 0 exampleUrl
      /\ exists k path,
           List.nth_error SPEC_DISCOVERY_PATHS k = Some path
           /\ "https://api.example.com/api-docs" = "https://api.example.com" ++ path
           /\ attemptSucceeds unit unit (fun _ => true) (fun _ => Some "3.0.3")
                (fun _ => None) fifthProbeFetch acceptAll (S k)
                ("https://api.example.com" ++ path) tt
           /\ (forall i p, i < k -> List.nth_error SPEC_DISCOVERY_PATHS i = Some p ->
                 Fetcher.attemptFails unit unit (fun _ => true) (fun _ => Some "3.0.3")
                   (fun _ => None) fifthProbeFetch acceptAll (S i)
                   ("https://api.example.com" ++ p))).
Proof.
  apply (@located_document_is_validated unit unit (fun _ => true)
           (fun _ => Some "3.0.3") (fun _ => None) fifthProbeFetch acceptAll
           exampleParseURL exampleUrl
           (fst (fifthProbeFetchOpenApiSpec exampleUrl))
           (Fetcher.mkFetchResult unit tt "https://api.example.com/api-docs")).
  vm_compute. reflexivity.
Defined.

(** X3, an instance: the host where every fetch answers 404. *)
Lemma failure_means_every_attempt_failed_witness :
  Fetcher.attemptFails unit unit (fun _ => false) (fun _ => None) (fun _ => None)
    deadFetch rejectAll 0 exampleUrl
  /\ (forall i p, List.nth_error SPEC_DISCOVERY_PATHS i = Some p ->
        Fetcher.attemptFails unit unit (fun _ => false) (fun _ => None) (fun _ => None)
          deadFetch rejectAll (S i) ("https://api.example.com" ++ p))
  /\ List.length (List.filter isTrying (fst (deadFetchOpenApiSpec exampleUrl))) = 15.
Proof.
  apply (@failure_means_every_attempt_failed unit unit (fun _ => false)
           (fun _ => None) (fun _ => None) deadFetch rejectAll exampleParseURL
           exampleUrl (fst (deadFetchOpenApiSpec exampleUrl))
           (notFoundMessage exampleUrl "https://api.example.com")).
  vm_compute. reflexivity.
Defined.

End MoreFetcherProps.
(* ------------------------------------------------------------------ *)
(** ** The search for a free port *)

Module ServerProps.
Import Server.

Section Ports.

Variable listens : nat -> nat -> bool.

Lemma findFrom_eq (i r port : nat) :
  findFrom listens i (S r) port
  = if Nat.leb portLimit port then inl (ListenRangeError port)
    else if listens i port then inr port
    else findFrom listens (S i) r (S port).
Proof. reflexivity. Qed.

Lemma findFrom_found (i remaining port p : nat) :
  findFrom listens i remaining port = inr p ->
  exists k,
    k < remaining /\ p = port + k /\ p < portLimit /\ listens (i + k) p = true
    /\ forall j, j < k -> listens (i + j) (port + j) = false.
Proof.
  revert i port. induction remaining as [|r IH]; intros i port H; [discriminate H|].
  rewrite findFrom_eq in H.
  destruct (Nat.leb portLimit port) eqn:L; [discriminate H|].
  apply Nat.leb_gt in L. destruct (listens i port) eqn:E.
  - injection H as <-. exists 0. rewrite !Nat.add_0_r.
    repeat split; [lia | exact L | exact E | intros j Hj; lia].
  - destruct (IH (S i) (S port) H) as (k & Hk & -> & Hp & Hl & Hbefore).
    exists (S k). rewrite !Nat.add_succ_r.
    repeat split; [lia | exact Hp | exact Hl |].
    intros [|j] Hj; [now rewrite !Nat.add_0_r|].
    rewrite !Nat.add_succ_r. apply Hbefore. lia.
Qed.

Lemma findFrom_none (i remaining port : nat) (message : string) :
  findFrom listens i remaining port = inl (NoAvailablePort message) ->
  message = "Could not find available port after 100 attempts"
  /\ (remaining = 0 \/ port + remaining <= portLimit)
  /\ forall j, j < remaining -> listens (i + j) (port + j) = false.
Proof.
  revert i port. induction remaining as [|r IH]; intros i port H.
  - injection H as <-. repeat split; [now left | intros j Hj; lia].
  - rewrite findFrom_eq in H.
    destruct (Nat.leb portLimit port) eqn:L; [discriminate H|].
    apply Nat.leb_gt in L. destruct (listens i port) eqn:E; [discriminate H|].
    destruct (IH (S i) (S port) H) as (Hm & Hrange & Hall).
    repeat split; [exact Hm | right; lia |].
    intros [|j] Hj; [now rewrite !Nat.add_0_r|].
    rewrite !Nat.add_succ_r. apply Hall. lia.
Qed.

Lemma findFrom_range (i remaining port q : nat) :
  findFrom listens i remaining port = inl (ListenRangeError q) ->
  exists k,
    k < remaining /\ q = port + k /\ q = Nat.max port portLimit
    /\ forall j, j < k -> listens (i + j) (port + j) = false.
Proof.
  revert i port. induction remaining as [|r IH]; intros i port H; [discriminate H|].
  rewrite findFrom_eq in H. destruct (Nat.leb portLimit port) eqn:L.
  - apply Nat.leb_le in L. injection H as <-. exists 0. rewrite Nat.add_0_r.
    repeat split; [lia | lia | intros j Hj; lia].
  - apply Nat.leb_gt in L. destruct (listens i port) eqn:E; [discriminate H|].
    destruct (IH (S i) (S port) H) as (k & Hk & -> & Hmax & Hbefore).
    exists (S k). rewrite !Nat.add_succ_r. repeat split; [lia | lia |].
    intros [|j] Hj; [now rewrite !Nat.add_0_r|].
    rewrite !Nat.add_succ_r. apply Hbefore. lia.
Qed.

(** X4: the port [findAvailablePort] returns is the first free one at or
    above the start port: it lies within the hundred ports tried, the test
    server could listen on it, and on every port below it the test failed. *)
Theorem found_port_is_first_free (startPort p : nat) :
  findAvailablePort listens startPort = inr p ->
  startPort <= p < startPort + 100
  /\ listens (p - startPort) p = true
  /\ forall q, startPort <= q < p -> listens (q - startPort) q = false.
Proof.
  intros H. apply findFrom_found in H.
  destruct H as (k & Hk & -> & _ & Hl & Hbefore). unfold maxAttempts in Hk.
  cbn [Nat.add] in Hl, Hbefore.
  split; [lia|]. split.
  - now replace (startPort + k - startPort) with k by lia.
  - intros q Hq. specialize (Hbefore (q - startPort)).
    replace (startPort + (q - startPort)) with q in Hbefore by lia.
    apply Hbefore. lia.
Qed.

(** X5: the two ways [findAvailablePort] fails.  It throws its own error,
    "Could not find available port after 100 attempts", exactly when the
    hundred numbers from the start port on are all ports (at most 65535)
    and the test server could listen on none of them.  It fails with the
    RangeError of [listen] exactly when the hundred numbers reach 65536 and
    the test failed on every port below 65536 among them; the number
    refused is the start port itself when it is no port, 65536 otherwise.
    In every other case a port is returned. *)
Theorem no_port_only_after_hundred_failures (startPort : nat) :
  (forall message,
      findAvailablePort listens startPort = inl (NoAvailablePort message)
      <-> message = "Could not find available port after 100 attempts"
          /\ startPort + 100 <= portLimit
          /\ forall i, i < 100 -> listens i (startPort + i) = false)
  /\ (forall port,
        findAvailablePort listens startPort = inl (ListenRangeError port)
        <-> portLimit < startPort + 100
            /\ port = Nat.max startPort portLimit
            /\ forall i, startPort + i < portLimit ->
                         listens i (startPort + i) = false)
  /\ ((exists p, findAvailablePort listens startPort = inr p)
      <-> exists i, i < 100 /\ startPort + i < portLimit
                    /\ listens i (startPort + i) = true).
Proof.
  assert (Hnone : forall message,
             findAvailablePort listens startPort = inl (NoAvailablePort message) ->
             message = "Could not find available port after 100 attempts"
             /\ startPort + 100 <= portLimit
             /\ forall i, i < 100 -> listens i (startPort + i) = false).
  { intros message H. apply findFrom_none in H.
    destruct H as (Hm & [Hr|Hr] & Hall); [discriminate Hr|].
    unfold maxAttempts in Hr, Hall. repeat split; [exact Hm | exact Hr | exact Hall]. }
  assert (Hrange : forall port,
             findAvailablePort listens startPort = inl (ListenRangeError port) ->
             portLimit < startPort + 100
             /\ port = Nat.max startPort portLimit
             /\ forall i, startPort + i < portLimit ->
                          listens i (startPort + i) = false).
  { intros port H. apply findFrom_range in H.
    destruct H as (k & Hk & Hq & Hmax & Hbefore). unfold maxAttempts in Hk.
    repeat split; [lia | exact Hmax |].
    intros i Hi. apply (Hbefore i). lia. }
  assert (Hfound : forall p,
             findAvailablePort listens startPort = inr p ->
             exists i, i < 100 /\ startPort + i < portLimit
                       /\ listens i (startPort + i) = true).
  { intros p H. apply findFrom_found in H.
    destruct H as (k & Hk & -> & Hp & Hl & _). exists k.
    repeat split; [exact Hk | exact Hp | exact Hl]. }
  split; [|split].
  - intros message. split; [apply Hnone|].
    intros (-> & Hr & Hall).
    destruct (findAvailablePort listens startPort) as [[m|q]|p] eqn:E.
    + destruct (Hnone m eq_refl) as (-> & _). reflexivity.
    + destruct (Hrange q eq_refl) as (Hq & _). lia.
    + destruct (Hfound p eq_refl) as (i & Hi & _ & Hl).
      rewrite (Hall i Hi) in Hl. discriminate Hl.
  - intros port. split; [apply Hrange|].
    intros (Hr & -> & Hall).
    destruct (findAvailablePort listens startPort) as [[m|q]|p] eqn:E.
    + destruct (Hnone m eq_refl) as (_ & Hm & _). lia.
    + destruct (Hrange q eq_refl) as (_ & -> & _). reflexivity.
    + destruct (Hfound p eq_refl) as (i & _ & Hi & Hl).
      rewrite (Hall i Hi) in Hl. discriminate Hl.
  - split; [intros [p H]; exact (Hfound p H)|].
    intros (i & Hi & Hp & Hl).
    destruct (findAvailablePort listens startPort) as [[m|q]|p] eqn:E.
    + destruct (Hnone m eq_refl) as (_ & _ & Hall).
      rewrite (Hall i Hi) in Hl. discriminate Hl.
    + destruct (Hrange q eq_refl) as (_ & _ & Hall).
      rewrite (Hall i Hp) in Hl. discriminate Hl.
    + exists p. reflexivity.
Qed.

End Ports.

(** X4, an instance: ports 3000 and 3001 are taken, 3002 is free. *)
Lemma found_port_is_first_free_witness :
  3000 <= 3002 < 3000 + 100
  /\ Nat.leb 3002 3002 = true
  /\ forall q, 3000 <= q < 3002 -> Nat.leb 3002 q = false.
Proof.
  apply (@found_port_is_first_free (fun _ port => Nat.leb 3002 port) 3000 3002).
  reflexivity.
Defined.

(** X5, an instance: from port 65530 on with every port taken, the seventh
    attempt asks for 65536 and [listen] refuses it. *)
Lemma no_port_only_after_hundred_failures_witness :
  findAvailablePort (fun _ _ => false) (portLimit - 6)
  = inl (ListenRangeError portLimit).
Proof.
  apply (proj2 (proj1 (proj2 (@no_port_only_after_hundred_failures
                                (fun _ _ => false) (portLimit - 6)))
                      portLimit)).
  unfold portLimit. split; [lia|]. split; [lia|].
  intros i _. reflexivity.
Defined.

End ServerProps.
